(** * gst-soup-server-example

    A shallow embedding of the HTTP broadcast server
    ([gst-soup-server-example.cpp]) and of its scope guard
    ([scope_guard.hpp]), followed by the properties of the client registry,
    of the bus watch and of program startup.

    Conventions.  Pointers are addresses ([N], [0] is [nullptr]).  Every call
    the program makes into GStreamer, GLib or libsoup, and every line it
    writes to [std::cerr], is appended to a trace, oldest first, so that the
    order of the calls can be stated.  A C++ function that may throw returns
    a [completion]: the state it left behind, and the exception if one is in
    flight. *)

From Stdlib Require Import ZArith NArith String Ascii List Lia Permutation.
From Stdlib Require Import HexadecimalString DecimalString DecimalPos DecimalN.
From stdpp Require Import base option list gmap strings.

Set Default Proof Using "Type".

(** ** Completions *)

Inductive completion (A : Type) : Type :=
| Returns (a : A)
| Throws (what : string) (a : A).
Arguments Returns {A} a.
Arguments Throws {A} what a.

Definition state_of {A} (c : completion A) : A :=
  match c with Returns a => a | Throws _ a => a end.

Definition thrown {A} (c : completion A) : option string :=
  match c with Returns _ => None | Throws what _ => Some what end.

(** Sequencing: an exception in flight skips what follows. *)
Definition and_then {A} (c : completion A) (k : A -> completion A) : completion A :=
  match c with
  | Returns a => k a
  | Throws what a => Throws what a
  end.

(** [try { ... } catch (...) { }] *)
Definition catch_all {A} (c : completion A) : completion A :=
  Returns (state_of c).

(** ** scope_guard.hpp *)

Module ScopeGuard.
Section Impl.
(** [W] is whatever part of the program state the cleanup acts on. *)
Context {W : Type}.

(** A callable held by [std::function<void()>]. *)
Definition Func : Type := W -> completion W.

(** [m_func] is [None] when the [std::function] holds no target. *)
Record scope_guard_impl : Type := {
  m_func : option Func;
  m_dismissed : bool
}.

(** [explicit scope_guard_impl(Func &&p_func)] *)
Definition construct (p_func : Func) : scope_guard_impl :=
  {| m_func := Some p_func; m_dismissed := false |}.

(** [scope_guard_impl(scope_guard_impl &&p_other)]: the new guard, and
    [p_other] as the constructor leaves it. *)
Definition move_construct (p_other : scope_guard_impl)
  : scope_guard_impl * scope_guard_impl :=
  ({| m_func := m_func p_other; m_dismissed := m_dismissed p_other |},
   {| m_func := None; m_dismissed := true |}).

(** [void dismiss() const throw()] *)
Definition dismiss (g : scope_guard_impl) : scope_guard_impl :=
  {| m_func := m_func g; m_dismissed := true |}.

(** What a destructor did: how often it entered the stored callable, and
    how it completed. *)
Record destruction : Type := {
  calls : nat;
  after : completion W
}.

(** [m_func()]: [std::function::operator()] throws
    [std::bad_function_call] when there is no target. *)
Definition invoke (f : option Func) (w : W) : destruction :=
  match f with
  | Some body => {| calls := 1; after := body w |}
  | None => {| calls := 0; after := Throws "bad_function_call" w |}
  end.

(** [~scope_guard_impl()] *)
Definition destroy (g : scope_guard_impl) (w : W) : destruction :=
  if m_dismissed g then {| calls := 0; after := Returns w |}
  else
    let d := invoke (m_func g) w in
    {| calls := calls d; after := catch_all (after d) |}.

(** [make_scope_guard(Func &&p_func)] returns the guard by value. *)
Definition make_scope_guard (p_func : Func) : scope_guard_impl :=
  construct p_func.

(** The life of one guard object up to its destruction.  A guard made by
    the move constructor continues the life of the guard it was moved out
    of. *)
Inductive life : Type :=
| Built (p_func : Func)
| MovedInto (source : life)
| Dismissed (before : life)
| MovedFrom (before : life).

Fixpoint guard_after (l : life) : scope_guard_impl :=
  match l with
  | Built p_func => construct p_func
  | MovedInto source => fst (move_construct (guard_after source))
  | Dismissed before => dismiss (guard_after before)
  | MovedFrom before => snd (move_construct (guard_after before))
  end.

(** The callable the life started with. *)
Fixpoint cleanup_of (l : life) : Func :=
  match l with
  | Built p_func => p_func
  | MovedInto l' | Dismissed l' | MovedFrom l' => cleanup_of l'
  end.

(** Neither [dismiss()] was called nor was the guard moved from, for the
    guard itself and, when it was made by the move constructor, for the
    guard it took over from. *)
Fixpoint untouched (l : life) : bool :=
  match l with
  | Built _ => true
  | MovedInto source => untouched source
  | Dismissed _ | MovedFrom _ => false
  end.

(** The wording "[dismiss()] was never called on it and the guard was not
    moved from", read for the object alone: nothing happened to it since
    it was made, by either constructor. *)
Definition spared (l : life) : bool :=
  match l with
  | Built _ | MovedInto _ => true
  | Dismissed _ | MovedFrom _ => false
  end.

(** A scope: the guard is declared, [body] runs, the guard is destroyed on
    the way out, whether [body] returned or threw. *)
Definition with_guard (p_func : Func)
    (body : scope_guard_impl -> W -> scope_guard_impl * completion W)
    (w : W) : completion W :=
  let '(g, c) := body (make_scope_guard p_func) w in
  match c with
  | Returns w' => Returns (state_of (after (destroy g w')))
  | Throws what w' => Throws what (state_of (after (destroy g w')))
  end.
End Impl.
Arguments scope_guard_impl W : clear implicits.
Arguments life W : clear implicits.
Arguments Func W : clear implicits.
End ScopeGuard.

(** ** GStreamer's vocabulary, as far as the program uses it *)

Definition GSocket : Type := N.
Definition GIOStream : Type := N.

Inductive GstState : Type :=
| GST_STATE_VOID_PENDING
| GST_STATE_NULL
| GST_STATE_READY
| GST_STATE_PAUSED
| GST_STATE_PLAYING.

Inductive GstStateChangeReturn : Type :=
| GST_STATE_CHANGE_FAILURE
| GST_STATE_CHANGE_SUCCESS
| GST_STATE_CHANGE_ASYNC
| GST_STATE_CHANGE_NO_PREROLL.

#[global] Instance GstState_eq_dec : EqDecision GstState.
Proof. solve_decision. Defined.

#[global] Instance GstStateChangeReturn_eq_dec : EqDecision GstStateChangeReturn.
Proof. solve_decision. Defined.

Definition gst_element_state_get_name (st : GstState) : string :=
  match st with
  | GST_STATE_VOID_PENDING => "VOID_PENDING"
  | GST_STATE_NULL => "NULL"
  | GST_STATE_READY => "READY"
  | GST_STATE_PAUSED => "PAUSED"
  | GST_STATE_PLAYING => "PLAYING"
  end.

(** The messages [bus_watch] tells apart.  [from_toplevel] is
    [GST_MESSAGE_SRC(msg) == GST_OBJECT(m_pipeline)]; [name] is the name of
    the structure of an element message; [text] and [debug_info] are what
    [gst_message_parse_info/warning/error] hand back. *)
Inductive GstMessage : Type :=
| GST_MESSAGE_STATE_CHANGED (from_toplevel : bool) (old_state new_state pending : GstState)
| GST_MESSAGE_ELEMENT (name : string)
| GST_MESSAGE_EOS
| GST_MESSAGE_INFO (text debug_info : string)
| GST_MESSAGE_WARNING (text debug_info : string)
| GST_MESSAGE_ERROR (text debug_info : string)
| GST_MESSAGE_REQUEST_STATE (requested : GstState) (src_name : string)
| GST_MESSAGE_LATENCY
| GST_MESSAGE_OTHER.

#[global] Instance GstMessage_eq_dec : EqDecision GstMessage.
Proof. solve_decision. Defined.

(** What the program does to the outside, in the order it does it. *)
Inductive event : Type :=
| Stderr (text : string)
| SetState (target : GstState)
| SinkAdd (socket : GSocket)
| SinkClear
| StreamClose (stream : GIOStream)
| PostMessage (name : string)
| DotDump (name : string)
| RecalculateLatency
| Unref (object : string)
| AddHandler (path : string)
| Listen (port : Z).

#[global] Instance event_eq_dec : EqDecision event.
Proof. solve_decision. Defined.

Definition nl : string := String "010"%char EmptyString.
Definition dquote : string := String "034"%char EmptyString.

(** [std::cerr << std::hex << guintptr(p)] *)
Definition hex (p : N) : string :=
  HexadecimalString.NilZero.string_of_uint (N.to_hex_uint p).

(** [std::cerr << port] for an unsigned value *)
Definition dec (n : Z) : string :=
  DecimalString.NilZero.string_of_uint (N.to_uint (Z.to_N n)).

(** ** http_stream_pipeline *)

Module Pipeline.

(** The object after construction.  [sink_sockets] are the sockets
    [m_multisocketsink] delivers to, newest first; [gst_state] is the state
    [m_pipeline] was last set to; [bus] holds the messages posted on the
    pipeline's bus and not yet handed to the bus watch, oldest first. *)
Record http_stream_pipeline : Type := {
  m_content_type : string;
  m_clients : gmap GSocket GIOStream;
  sink_sockets : list GSocket;
  gst_state : GstState;
  bus : list GstMessage;
  trace : list event
}.

Definition set_clients (c : gmap GSocket GIOStream) (s : http_stream_pipeline) :=
  {| m_content_type := m_content_type s; m_clients := c;
     sink_sockets := sink_sockets s; gst_state := gst_state s;
     bus := bus s; trace := trace s |}.

Definition set_sink (l : list GSocket) (s : http_stream_pipeline) :=
  {| m_content_type := m_content_type s; m_clients := m_clients s;
     sink_sockets := l; gst_state := gst_state s;
     bus := bus s; trace := trace s |}.

Definition set_gst_state (st : GstState) (s : http_stream_pipeline) :=
  {| m_content_type := m_content_type s; m_clients := m_clients s;
     sink_sockets := sink_sockets s; gst_state := st;
     bus := bus s; trace := trace s |}.

Definition set_bus (b : list GstMessage) (s : http_stream_pipeline) :=
  {| m_content_type := m_content_type s; m_clients := m_clients s;
     sink_sockets := sink_sockets s; gst_state := gst_state s;
     bus := b; trace := trace s |}.

Definition emit (e : event) (s : http_stream_pipeline) :=
  {| m_content_type := m_content_type s; m_clients := m_clients s;
     sink_sockets := sink_sockets s; gst_state := gst_state s;
     bus := bus s; trace := trace s ++ [e] |}.

Definition cerr (text : string) : http_stream_pipeline -> http_stream_pipeline :=
  emit (Stderr text).

(** The object the constructor leaves when it does not throw: no client,
    nothing on the bus, the pipeline in READY. *)
Definition constructed (p_content_type : string) (so_far : list event)
  : http_stream_pipeline :=
  {| m_content_type := p_content_type; m_clients := ∅; sink_sockets := [];
     gst_state := GST_STATE_READY; bus := []; trace := so_far |}.

Definition get_content_type (s : http_stream_pipeline) : string :=
  m_content_type s.

Definition StopPipeline : GstMessage := GST_MESSAGE_ELEMENT "StopPipeline".

(** [gst_element_post_message]: the message joins the queue of the bus. *)
Definition gst_element_post_message (m : GstMessage) (s : http_stream_pipeline) :=
  set_bus (bus s ++ [m]) s.

(** [static void on_client_socket_removed(GstElement*, GSocket*, gpointer)] *)
Definition on_client_socket_removed (p_socket : GSocket)
    (self : http_stream_pipeline) : http_stream_pipeline :=
  let self := cerr ("Client with socket " +:+ hex p_socket +:+ " got removed" +:+ nl) self in
  match m_clients self !! p_socket with
  | None => cerr ("Socket is not in list - ignoring" +:+ nl) self
  | Some stream =>
      let self := emit (StreamClose stream) self in
      let self := set_clients (delete p_socket (m_clients self)) self in
      if decide (m_clients self = ∅) then
        let self := cerr ("No clients connected - setting pipeline state to READY" +:+ nl) self in
        emit (PostMessage "StopPipeline") (gst_element_post_message StopPipeline self)
      else self
  end.

(** Modelled from the spec: the fan-out sink (GStreamer's multisocketsink)
    is an external collaborator of which the source holds only the calls.
    Signal "add" makes the socket a delivery target unless it is one
    already. *)
Definition sink_add (p_socket : GSocket) (targets : list GSocket) : list GSocket :=
  if decide (p_socket ∈ targets) then targets else p_socket :: targets.

(** [g_signal_emit_by_name(m_multisocketsink, "add", p_socket)] *)
Definition emit_add (p_socket : GSocket) (s : http_stream_pipeline) :=
  emit (SinkAdd p_socket) (set_sink (sink_add p_socket (sink_sockets s)) s).

(** Modelled from the spec: when the sink gives up one target (the peer
    went away, or the client overran its buffer or timed out) it drops the
    socket and raises "client-socket-removed", which runs the callback in
    the delivery context. *)
Definition sink_drop (p_socket : GSocket) (s : http_stream_pipeline) :=
  on_client_socket_removed p_socket
    (set_sink (filter (λ k, k ≠ p_socket) (sink_sockets s)) s).

(** Modelled from the spec: signal "clear" drops the targets one after the
    other and raises "client-socket-removed" for each (source comment:
    "This will invoke on_client_socket_removed() for each one of them"). *)
Fixpoint sink_clear_each (targets : list GSocket) (s : http_stream_pipeline) :=
  match targets with
  | [] => s
  | p_socket :: rest =>
      sink_clear_each rest (on_client_socket_removed p_socket (set_sink rest s))
  end.

(** [g_signal_emit_by_name(m_multisocketsink, "clear")] *)
Definition emit_clear (s : http_stream_pipeline) :=
  sink_clear_each (sink_sockets s) (emit SinkClear s).

(** Everything that can happen while the main loop runs. *)
Inductive action : Type :=
| AddClient (p_stream : GIOStream) (p_socket : GSocket)
| SocketRemoved (p_socket : GSocket)
| Post (m : GstMessage)
| Dispatch.

Section Engine.
(** What [gst_element_set_state(m_pipeline, target)] answers is up to the
    engine; it may depend on everything that happened before. *)
Variable set_state_return : http_stream_pipeline -> GstState -> GstStateChangeReturn.

(** [gst_element_set_state(m_pipeline, target)]: a request that does not
    fail makes [target] the state of the pipeline. *)
Definition gst_element_set_state (target : GstState) (s : http_stream_pipeline)
  : GstStateChangeReturn * http_stream_pipeline :=
  let r := set_state_return s target in
  let s := emit (SetState target) s in
  (r, if decide (r = GST_STATE_CHANGE_FAILURE) then s else set_gst_state target s).

(** [void play(bool const p_do_play)] *)
Definition play (p_do_play : bool) (s : http_stream_pipeline)
  : completion http_stream_pipeline :=
  let '(r, s) :=
    gst_element_set_state
      (if p_do_play then GST_STATE_PLAYING else GST_STATE_READY) s in
  if decide (r = GST_STATE_CHANGE_FAILURE)
  then Throws "failed to set pipeline state" s
  else Returns s.

(** [void add_client(GIOStream *p_stream, GSocket *p_socket)] *)
Definition add_client (p_stream : GIOStream) (p_socket : GSocket)
    (s : http_stream_pipeline) : completion http_stream_pipeline :=
  let s := set_clients (<[p_socket := p_stream]> (m_clients s)) s in
  let s := emit_add p_socket s in
  let s := cerr ("Adding socket " +:+ hex p_socket +:+ nl) s in
  if decide (size (m_clients s) = 1) then
    let s := cerr ("A client just connected, and pipeline isn't running yet - setting pipeline state to PLAYING" +:+ nl) s in
    play true s
  else Returns s.

(** [bool bus_watch(GstBus*, GstMessage *p_message)]; when it returns, it
    returns [true]. *)
Definition bus_watch (p_message : GstMessage) (s : http_stream_pipeline)
  : completion http_stream_pipeline :=
  match p_message with
  | GST_MESSAGE_STATE_CHANGED from_toplevel old_gst_state new_gst_state pending_gst_state =>
      if from_toplevel then
        let s := cerr ("State change: "
                       +:+ " old " +:+ gst_element_state_get_name old_gst_state
                       +:+ " new " +:+ gst_element_state_get_name new_gst_state
                       +:+ " pending " +:+ gst_element_state_get_name pending_gst_state
                       +:+ nl) s in
        Returns (emit (DotDump ("statechange-"
                       +:+ "old-" +:+ gst_element_state_get_name old_gst_state +:+ "-"
                       +:+ "cur-" +:+ gst_element_state_get_name new_gst_state +:+ "-"
                       +:+ "pending-" +:+ gst_element_state_get_name pending_gst_state)) s)
      else Returns s
  | GST_MESSAGE_ELEMENT name =>
      if decide (name = "StopPipeline") then play false s else Returns s
  | GST_MESSAGE_EOS =>
      let s := cerr ("EOS received - halting pipeline" +:+ nl) s in
      and_then (play false s) (λ s, Returns (emit_clear s))
  | GST_MESSAGE_INFO text debug_info =>
      let s := cerr "INFO: " s in
      Returns (cerr (text +:+ "; debug info: " +:+ debug_info +:+ nl) s)
  | GST_MESSAGE_WARNING text debug_info =>
      let s := cerr "WARNING: " s in
      Returns (cerr (text +:+ "; debug info: " +:+ debug_info +:+ nl) s)
  | GST_MESSAGE_ERROR text debug_info =>
      let s := cerr "ERROR: " s in
      let s := cerr (text +:+ "; debug info: " +:+ debug_info +:+ nl) s in
      let s := emit (DotDump "error") s in
      let s := cerr ("Stopping pipeline due to error" +:+ nl) s in
      and_then (play false s) (λ s, Returns (emit_clear s))
  | GST_MESSAGE_REQUEST_STATE requested_state src_name =>
      let s := cerr ("State change to " +:+ gst_element_state_get_name requested_state
                     +:+ " was requested by " +:+ src_name +:+ nl) s in
      Returns (snd (gst_element_set_state requested_state s))
  | GST_MESSAGE_LATENCY =>
      let s := cerr ("Redistributing latency" +:+ nl) s in
      Returns (emit RecalculateLatency s)
  | GST_MESSAGE_OTHER => Returns s
  end.

(** One step of the running program: the accept context hands over a
    connection, the delivery context loses a target, somebody posts on
    the bus, or the control context hands the oldest message to the bus
    watch. *)
Definition perform (a : action) (s : http_stream_pipeline)
  : completion http_stream_pipeline :=
  match a with
  | AddClient p_stream p_socket => add_client p_stream p_socket s
  | SocketRemoved p_socket =>
      if decide (p_socket ∈ sink_sockets s) then Returns (sink_drop p_socket s)
      else Returns s
  | Post m => Returns (gst_element_post_message m s)
  | Dispatch =>
      match bus s with
      | [] => Returns s
      | m :: rest => bus_watch m (set_bus rest s)
      end
  end.

(** The program runs until the schedule ends (the main loop is quit) or
    an exception leaves a callback. *)
Fixpoint run (schedule : list action) (s : http_stream_pipeline)
  : completion http_stream_pipeline :=
  match schedule with
  | [] => Returns s
  | a :: rest => and_then (perform a s) (run rest)
  end.

(** [~http_stream_pipeline()], for a constructed object. *)
Definition destructor (s : http_stream_pipeline) : http_stream_pipeline :=
  emit (Unref "m_pipeline") (snd (gst_element_set_state GST_STATE_NULL s)).
End Engine.

(** *** Vocabulary of the properties *)

(** The state changes requested of the pipeline, the streams closed and
    the names of the messages posted, as a trace shows them. *)
Definition state_changes (t : list event) : list GstState :=
  omap (λ e, match e with SetState target => Some target | _ => None end) t.

Definition closes (t : list event) : list GIOStream :=
  omap (λ e, match e with StreamClose stream => Some stream | _ => None end) t.

Definition posts (t : list event) : list string :=
  omap (λ e, match e with PostMessage name => Some name | _ => None end) t.

(** The state [play] asks for. *)
Definition target_of (p_do_play : bool) : GstState :=
  if p_do_play then GST_STATE_PLAYING else GST_STATE_READY.

(** The object [add_client] has built when it looks at the size of the
    registry. *)
Definition registered (p_stream : GIOStream) (p_socket : GSocket)
    (s : http_stream_pipeline) : http_stream_pipeline :=
  cerr ("Adding socket " +:+ hex p_socket +:+ nl)
    (emit_add p_socket (set_clients (<[p_socket := p_stream]> (m_clients s)) s)).

(** What handling one "client-socket-removed" may add to the trace: lines
    on [std::cerr], the close of the connection, the stop request. *)
Definition removal_event (e : event) : bool :=
  match e with
  | Stderr _ | StreamClose _ | PostMessage _ => true
  | _ => false
  end.

(** The connections the registry holds. *)
Definition streams (s : http_stream_pipeline) : list GIOStream :=
  (map_to_list (m_clients s)).*2.

Definition is_stop (m : GstMessage) : bool :=
  match m with
  | GST_MESSAGE_ELEMENT name => bool_decide (name = "StopPipeline")
  | _ => false
  end.

Definition is_request_state (m : GstMessage) : bool :=
  match m with
  | GST_MESSAGE_REQUEST_STATE _ _ => true
  | _ => false
  end.

(** A stop request is on the bus, not yet handled. *)
Definition stop_pending (s : http_stream_pipeline) : bool :=
  existsb is_stop (bus s).

(** Registry and fan-out sink are paired one to one. *)
Definition paired (s : http_stream_pipeline) : Prop :=
  NoDup (sink_sockets s) ∧ ∀ k, k ∈ sink_sockets s ↔ is_Some (m_clients s !! k).

(** The states the running program passes through. *)
Definition reachable
    (set_state_return : http_stream_pipeline -> GstState -> GstStateChangeReturn)
    (s : http_stream_pipeline) : Prop :=
  ∃ p_content_type so_far schedule,
    run set_state_return schedule (constructed p_content_type so_far) = Returns s.

(** A schedule is calm when nobody but [on_client_socket_removed] posts a
    stop request, no element asks for a state of its own choice, and no
    client is added while a stop request is still on the bus. *)
Definition calm_action (a : action) (s : http_stream_pipeline) : bool :=
  match a with
  | AddClient _ _ => negb (stop_pending s)
  | Post m => negb (is_stop m) && negb (is_request_state m)
  | SocketRemoved _ | Dispatch => true
  end.

Fixpoint calm
    (set_state_return : http_stream_pipeline -> GstState -> GstStateChangeReturn)
    (schedule : list action) (s : http_stream_pipeline) : bool :=
  match schedule with
  | [] => true
  | a :: rest =>
      calm_action a s
      && calm set_state_return rest (state_of (perform set_state_return a s))
  end.

(** The state of the pipeline follows the registry: READY, or a stop
    request on its way, while there is no client; PLAYING, and no stop
    request on its way, while there is one.  No request for a state of an
    element's choice is waiting. *)
Definition in_step (s : http_stream_pipeline) : Prop :=
  paired s
  ∧ existsb is_request_state (bus s) = false
  ∧ if decide (m_clients s = ∅)
    then gst_state s = GST_STATE_READY ∨ stop_pending s = true
    else gst_state s = GST_STATE_PLAYING ∧ stop_pending s = false.

(** *** States used in the examples below *)

Definition engine_obliges : http_stream_pipeline -> GstState -> GstStateChangeReturn :=
  λ _ _, GST_STATE_CHANGE_SUCCESS.

(** An engine that starts playing but refuses to go back to READY. *)
Definition engine_keeps_playing
  : http_stream_pipeline -> GstState -> GstStateChangeReturn :=
  λ _ target,
    if decide (target = GST_STATE_READY) then GST_STATE_CHANGE_FAILURE
    else GST_STATE_CHANGE_SUCCESS.

Definition fresh : http_stream_pipeline := constructed "video/ogg" [].

(** One client, socket 1 with connection 10, and the pipeline playing. *)
Definition one_client : http_stream_pipeline :=
  state_of (run engine_obliges [AddClient 10 1] fresh)%N.

(** Two clients. *)
Definition two_clients : http_stream_pipeline :=
  state_of (run engine_obliges [AddClient 10 1; AddClient 20 2] fresh)%N.
(** The messages the bus watch only logs, or ignores: everything but the
    stop request, end of stream, errors and state requests. *)
Definition log_only (m : GstMessage) : bool :=
  match m with
  | GST_MESSAGE_STATE_CHANGED _ _ _ _ | GST_MESSAGE_INFO _ _
  | GST_MESSAGE_WARNING _ _ | GST_MESSAGE_LATENCY | GST_MESSAGE_OTHER => true
  | GST_MESSAGE_ELEMENT name => negb (bool_decide (name = "StopPipeline"))
  | GST_MESSAGE_EOS | GST_MESSAGE_ERROR _ _ | GST_MESSAGE_REQUEST_STATE _ _ => false
  end.

(** The events of startup and teardown, which the callbacks never cause. *)
Definition startup_event (e : event) : bool :=
  match e with
  | Unref _ | AddHandler _ | Listen _ => true
  | _ => false
  end.

Definition listens (t : list event) : list Z :=
  omap (λ e, match e with Listen port => Some port | _ => None end) t.

(** The connections a schedule hands to [add_client], in order. *)
Definition handed (schedule : list action) : list GIOStream :=
  omap (λ a, match a with AddClient p_stream _ => Some p_stream | _ => None end)
       schedule.

(** Every client of the schedule comes with a socket that is not in the
    registry at that moment. *)
Fixpoint new_sockets
    (set_state_return : http_stream_pipeline -> GstState -> GstStateChangeReturn)
    (schedule : list action) (s : http_stream_pipeline) : bool :=
  match schedule with
  | [] => true
  | a :: rest =>
      match a with
      | AddClient _ p_socket => bool_decide (m_clients s !! p_socket = None)
      | _ => true
      end
      && new_sockets set_state_return rest (state_of (perform set_state_return a s))
  end.
End Pipeline.

(** ** The HTTP request handler *)

Module Http.
Import Pipeline.

Inductive SoupHTTPVersion : Type := SOUP_HTTP_1_0 | SOUP_HTTP_1_1.

Inductive SoupEncoding : Type :=
| SOUP_ENCODING_UNRECOGNIZED
| SOUP_ENCODING_NONE
| SOUP_ENCODING_CONTENT_LENGTH
| SOUP_ENCODING_EOF
| SOUP_ENCODING_CHUNKED
| SOUP_ENCODING_BYTERANGES.

(** What the handler reads of a [SoupClientContext]: the socket
    [soup_client_context_get_gsocket] returns and the connection
    [soup_client_context_steal_connection] hands over. *)
Record SoupClientContext : Type := {
  gsocket : GSocket;
  connection : GIOStream
}.

(** [struct request_context]; [m_pipeline] is the one pipeline of the
    program. *)
Record request_context : Type := {
  m_client : SoupClientContext
}.

(** What the handler writes of a [SoupMessage]: version, encoding and
    content type of the response headers, status, and the user data of the
    handlers connected to "wrote-headers". *)
Record SoupMessage : Type := {
  http_version : SoupHTTPVersion;
  encoding : SoupEncoding;
  content_type : option string;
  status_code : Z;
  wrote_headers : list request_context
}.

(** [void http_request_handler(SoupServer*, SoupMessage *p_msg, char const*,
    GHashTable*, SoupClientContext *p_client, gpointer p_user_data)] *)
Definition http_request_handler (pipeline : http_stream_pipeline)
    (p_msg : SoupMessage) (p_client : SoupClientContext) : SoupMessage :=
  {| http_version := SOUP_HTTP_1_0;
     encoding := SOUP_ENCODING_EOF;
     content_type := Some (get_content_type pipeline);
     status_code := 200;
     wrote_headers := wrote_headers p_msg ++ [{| m_client := p_client |}] |}.

(** The lambda connected to "wrote-headers". *)
Definition wrote_headers_cb
    (set_state_return : http_stream_pipeline -> GstState -> GstStateChangeReturn)
    (context_ : request_context) (pipeline : http_stream_pipeline)
  : completion http_stream_pipeline :=
  let socket := gsocket (m_client context_) in
  let stream := connection (m_client context_) in
  add_client set_state_return stream socket pipeline.
End Http.

(** ** Program startup: [std::stoi], the constructor and [main] *)

Module Main.
Import ScopeGuard Pipeline.

(** *** [std::stoi(argv[1])]

    [std::stoi] is [strtol] in base 10 with two checks added: optional white
    space, an optional sign, then the longest run of digits; whatever
    follows the digits is ignored.  No digit at all is
    [std::invalid_argument], a value that does not fit [int] is
    [std::out_of_range]. *)

Inductive stoi_result : Type :=
| stoi_value (v : Z)
| stoi_invalid_argument
| stoi_out_of_range.

Definition INT_MIN : Z := - 2 ^ 31.
Definition INT_MAX : Z := 2 ^ 31 - 1.

Definition isspace (c : ascii) : bool :=
  let n := N_of_ascii c in
  ((n =? 32) || ((9 <=? n) && (n <=? 13)))%N.

Definition digit_of (c : ascii) : option Z :=
  let n := N_of_ascii c in
  if ((48 <=? n) && (n <=? 57))%N then Some (Z.of_N n - 48)%Z else None.

Fixpoint skip_spaces (s : string) : string :=
  match s with
  | String c rest => if isspace c then skip_spaces rest else s
  | EmptyString => EmptyString
  end.

(** The number written by the digits at the front of [s], after the digits
    already read as [acc]. *)
Fixpoint read_digits (acc : Z) (s : string) : Z :=
  match s with
  | String c rest =>
      match digit_of c with
      | Some d => read_digits (10 * acc + d)%Z rest
      | None => acc
      end
  | EmptyString => acc
  end.

Definition starts_with_digit (s : string) : bool :=
  match s with
  | String c _ => bool_decide (is_Some (digit_of c))
  | EmptyString => false
  end.

Definition strtol (s : string) : option Z :=
  let s := skip_spaces s in
  let '(negative, s) :=
    match s with
    | String "-"%char rest => (true, rest)
    | String "+"%char rest => (false, rest)
    | _ => (false, s)
    end in
  if starts_with_digit s
  then Some (if negative : bool then - read_digits 0 s else read_digits 0 s)%Z
  else None.

Definition stoi (str : string) : stoi_result :=
  match strtol str with
  | None => stoi_invalid_argument
  | Some v =>
      if ((v <? INT_MIN) || (INT_MAX <? v))%Z then stoi_out_of_range
      else stoi_value v
  end.

(** The specification's word for the port argument is "integer": an
    optional sign and then digits, nothing else.  Kept apart from [stoi] to
    compare the two. *)
Fixpoint all_digits (s : string) : bool :=
  match s with
  | String c rest => bool_decide (is_Some (digit_of c)) && all_digits rest
  | EmptyString => true
  end.

Definition spec_valid_integer (s : string) : bool :=
  let digits :=
    match s with
    | String "-"%char rest => rest
    | String "+"%char rest => rest
    | _ => s
    end in
  starts_with_digit digits && all_digits digits.

(** *** What the libraries answer during startup *)

Record startup : Type := {
  (** [soup_server_new] returned a server *)
  soup_server_new_ok : bool;
  (** [g_main_loop_new] returned a main loop *)
  g_main_loop_new_ok : bool;
  (** [gst_parse_launchv] returned [nullptr] and this [gerror->message] *)
  gst_parse_launchv_error : option string;
  (** [gst_bin_get_by_name(cmdline_bin, "stream")] found the element *)
  stream_element_found : bool;
  (** [gst_element_get_static_pad(stream_element, "src")] found the pad *)
  src_pad_found : bool;
  (** [gst_element_factory_make("multisocketsink")] made the sink *)
  multisocketsink_made : bool;
  (** the answer to [gst_element_set_state(m_pipeline, GST_STATE_READY)] *)
  set_state_ready_return : GstStateChangeReturn;
  (** [soup_server_listen_all] failed with this [gerror->message] *)
  soup_server_listen_all_error : option string
}.

(** *** The constructor of [http_stream_pipeline] *)

(** The element pointers the constructor's guard looks at ([true]: not
    [nullptr]) and the trace. *)
Record elements : Type := {
  stream_element : bool;
  cmdline_bin : bool;
  m_multisocketsink : bool;
  m_pipeline : bool;
  out : list event
}.

Definition say (e : event) (w : elements) : elements :=
  {| stream_element := stream_element w; cmdline_bin := cmdline_bin w;
     m_multisocketsink := m_multisocketsink w; m_pipeline := m_pipeline w;
     out := out w ++ [e] |}.

(** The lambda handed to [make_scope_guard] in the constructor: unref every
    element that is not null, in the order of the vector, and null it. *)
Definition unref_elements : Func elements := λ w,
  let w := if stream_element w
           then {| stream_element := false; cmdline_bin := cmdline_bin w;
                   m_multisocketsink := m_multisocketsink w; m_pipeline := m_pipeline w;
                   out := out w ++ [Unref "stream_element"] |}
           else w in
  let w := if cmdline_bin w
           then {| stream_element := stream_element w; cmdline_bin := false;
                   m_multisocketsink := m_multisocketsink w; m_pipeline := m_pipeline w;
                   out := out w ++ [Unref "cmdline_bin"] |}
           else w in
  let w := if m_multisocketsink w
           then {| stream_element := stream_element w; cmdline_bin := cmdline_bin w;
                   m_multisocketsink := false; m_pipeline := m_pipeline w;
                   out := out w ++ [Unref "m_multisocketsink"] |}
           else w in
  let w := if m_pipeline w
           then {| stream_element := stream_element w; cmdline_bin := cmdline_bin w;
                   m_multisocketsink := m_multisocketsink w; m_pipeline := false;
                   out := out w ++ [Unref "m_pipeline"] |}
           else w in
  Returns w.

(** The constructor's body, from the declaration of [elements_guard] on.
    Calls that configure the elements and cannot fail leave no mark. *)
Definition constructor_body (env : startup)
    (elements_guard : scope_guard_impl elements) (w : elements)
  : scope_guard_impl elements * completion elements :=
  match gst_parse_launchv_error env with
  | Some message =>
      (elements_guard, Throws ("could not parse pipeline: " +:+ message) w)
  | None =>
      let w := {| stream_element := stream_element w; cmdline_bin := true;
                  m_multisocketsink := m_multisocketsink w; m_pipeline := m_pipeline w;
                  out := out w |} in
      if negb (stream_element_found env) then
        (elements_guard,
         Throws ("no element with name " +:+ dquote +:+ "stream" +:+ dquote +:+ " found") w)
      else
        let w := {| stream_element := true; cmdline_bin := cmdline_bin w;
                    m_multisocketsink := m_multisocketsink w; m_pipeline := m_pipeline w;
                    out := out w |} in
        if negb (src_pad_found env) then
          (elements_guard,
           Throws ("no " +:+ dquote +:+ "src" +:+ dquote +:+ " pad in element "
                   +:+ dquote +:+ "stream" +:+ dquote +:+ " found" +:+ nl) w)
        else
          let w := say (Unref "srcpad") w in
          let w := say (Unref "stream_element") w in
          if negb (multisocketsink_made env) then
            (elements_guard, Throws "could not create multisocketsink" w)
          else
            let w := {| stream_element := stream_element w; cmdline_bin := cmdline_bin w;
                        m_multisocketsink := true; m_pipeline := true;
                        out := out w ++ [Unref "bus"] |} in
            let elements_guard := dismiss elements_guard in
            let w := say (SetState GST_STATE_READY) w in
            if decide (set_state_ready_return env = GST_STATE_CHANGE_FAILURE) then
              let w := {| stream_element := stream_element w; cmdline_bin := cmdline_bin w;
                          m_multisocketsink := m_multisocketsink w; m_pipeline := false;
                          out := out w ++ [Unref "m_pipeline"] |} in
              (elements_guard, Throws "failed to set pipeline state to READY" w)
            else (elements_guard, Returns w)
  end.

(** [http_stream_pipeline(std::string p_content_type, char **pipeline_cmdline_argv)] *)
Definition constructor (env : startup) (p_content_type : string) (so_far : list event)
  : completion http_stream_pipeline :=
  let w := {| stream_element := false; cmdline_bin := false;
              m_multisocketsink := false; m_pipeline := false; out := so_far |} in
  match with_guard unref_elements (constructor_body env) w with
  | Returns w => Returns (constructed p_content_type (out w))
  | Throws what w => Throws what (constructed p_content_type (out w))
  end.

(** *** [main] *)

(** Leaving the scope of a guard declared in [main]. *)
Definition leave (g : scope_guard_impl (list event)) (r : Z * list event)
  : Z * list event :=
  (fst r, state_of (after (destroy g (snd r)))).

Definition unref (object : string) : Func (list event) :=
  λ t, Returns (t ++ [Unref object]).

(** [gboolean exit_sighandler(gpointer p_data)]: the one place that quits
    the main loop; it returns [TRUE]. *)
Definition exit_sighandler (s : http_stream_pipeline) : http_stream_pipeline :=
  cerr ("caught signal, stopping mainloop" +:+ nl) s.

(** The [try] block of [main] together with its handler and the two
    statements after it. *)
Definition serve (env : startup)
    (set_state_return : http_stream_pipeline -> GstState -> GstStateChangeReturn)
    (schedule : list action) (argv : list string) (port : Z) : Z * list event :=
  match constructor env (nth 2 argv "") [] with
  | Throws what pipeline =>
      (0, trace pipeline ++ [Stderr ("Exception caught: " +:+ what +:+ nl);
                             Stderr ("Quitting" +:+ nl)])
  | Returns pipeline =>
      let pipeline := emit (AddHandler "/") pipeline in
      match soup_server_listen_all_error env with
      | Some message =>
          let pipeline := cerr ("could not start listening: " +:+ message +:+ nl) pipeline in
          (-1, trace (destructor set_state_return pipeline))
      | None =>
          let pipeline := emit (Listen port) pipeline in
          let pipeline := cerr ("Listening for incoming HTTP requests on port "
                                +:+ dec port +:+ nl) pipeline in
          match run set_state_return schedule pipeline with
          | Returns pipeline =>
              (* [g_main_loop_run] returns once the signal handler has run *)
              let pipeline := exit_sighandler pipeline in
              (0, trace (destructor set_state_return pipeline)
                  ++ [Stderr ("Quitting" +:+ nl)])
          | Throws what pipeline =>
              (0, trace (destructor set_state_return pipeline)
                  ++ [Stderr ("Exception caught: " +:+ what +:+ nl);
                      Stderr ("Quitting" +:+ nl)])
          end
      end
  end%Z.

(** [int main(int argc, char *argv[])], with [argv] as [gst_init] leaves it.
    [schedule] is what happens while [g_main_loop_run] runs, up to the
    signal that quits the loop. *)
Definition main (env : startup)
    (set_state_return : http_stream_pipeline -> GstState -> GstStateChangeReturn)
    (schedule : list action) (argv : list string) : Z * list event :=
  if (length argv <? 5)%nat then
    (-1, [Stderr ("Usage: " +:+ nth 0 argv "" +:+ " PORT CONTENT-TYPE <launch line>" +:+ nl);
          Stderr ("Example: " +:+ nth 0 argv ""
                  +:+ " 8080 ( videotestsrc ! theoraenc ! oggmux name=stream )" +:+ nl)])%Z
  else if negb (soup_server_new_ok env) then
    (-1, [Stderr ("Could not create Soup server" +:+ nl)])%Z
  else
    let soup_server_guard := make_scope_guard (unref "soup_server") in
    leave soup_server_guard
      (if negb (g_main_loop_new_ok env) then
         (-1, [Stderr ("Could not create GLib mainloop" +:+ nl)])%Z
       else
         let mainloop_guard := make_scope_guard (unref "mainloop") in
         leave mainloop_guard
           match stoi (nth 1 argv "") with
           | stoi_value v =>
               (* [guint port = int] *)
               serve env set_state_return schedule argv (v mod 2 ^ 32)%Z
           | stoi_invalid_argument | stoi_out_of_range =>
               (-1, [Stderr ("Invalid port number " +:+ dquote +:+ nth 1 argv ""
                             +:+ dquote +:+ nl)])%Z
           end).

(** The status the parent sees: the low eight bits of what [main] returns. *)
Definition exit_status (returned : Z) : Z := (returned mod 256)%Z.

(** *** Inputs used in the examples below *)

Definition all_well : startup :=
  {| soup_server_new_ok := true; g_main_loop_new_ok := true;
     gst_parse_launchv_error := None; stream_element_found := true;
     src_pad_found := true; multisocketsink_made := true;
     set_state_ready_return := GST_STATE_CHANGE_SUCCESS;
     soup_server_listen_all_error := None |}.

(** The launch line has no element called "stream". *)
Definition no_stream_element : startup :=
  {| soup_server_new_ok := true; g_main_loop_new_ok := true;
     gst_parse_launchv_error := None; stream_element_found := false;
     src_pad_found := true; multisocketsink_made := true;
     set_state_ready_return := GST_STATE_CHANGE_SUCCESS;
     soup_server_listen_all_error := None |}.

Definition argv_8080 : list string :=
  ["gst-soup-server-example"; "8080"; "video/ogg"; "videotestsrc"; "!"; "theoraenc";
   "!"; "oggmux"].

Definition argv_80abc : list string :=
  ["gst-soup-server-example"; "80abc"; "video/ogg"; "videotestsrc"; "!"; "theoraenc";
   "!"; "oggmux"; "name=stream"].

(** The sink element cannot be made. *)
Definition no_multisocketsink : startup :=
  {| soup_server_new_ok := true; g_main_loop_new_ok := true;
     gst_parse_launchv_error := None; stream_element_found := true;
     src_pad_found := true; multisocketsink_made := false;
     set_state_ready_return := GST_STATE_CHANGE_SUCCESS;
     soup_server_listen_all_error := None |}.
End Main.

(** * Properties *)

(** ** The scope guard *)

Section ScopeGuardProperties.
Import ScopeGuard.
Context {W : Type}.
Implicit Types (g : scope_guard_impl W) (l : life W) (w : W) (f : Func W).

Lemma dismissed_after l : m_dismissed (guard_after l) = negb (untouched l).
Proof. induction l as [f | l IH | l IH | l IH]; simpl; auto. Qed.

Lemma func_after_untouched l :
  untouched l = true → m_func (guard_after l) = Some (cleanup_of l).
Proof. induction l as [f | l IH | l IH | l IH]; simpl; auto; discriminate. Qed.

Lemma destroy_returns g w : thrown (after (destroy g w)) = None.
Proof. unfold destroy. destruct (m_dismissed g); reflexivity. Qed.

Lemma destroy_dismissed g w :
  m_dismissed g = true → destroy g w = {| calls := 0; after := Returns w |}.
Proof. unfold destroy. intros ->. reflexivity. Qed.

(** Returning the guard by value through the move constructor gives the
    guard [make_scope_guard] built, and the temporary left behind runs
    nothing when it dies. *)
Lemma make_scope_guard_by_move f w :
  fst (move_construct (construct f)) = make_scope_guard f
  ∧ calls (destroy (snd (move_construct (construct f))) w) = 0.
Proof. split; reflexivity. Qed.

(** C10 fails as stated for a guard made by the move constructor out of a
    guard that was dismissed before: [dismiss()] is never called on the new
    guard and it is not moved from, and still its destructor does not run
    the cleanup, because the move constructor copies [m_dismissed]. *)
Lemma guard_moved_out_of_dismissed_runs_nothing :
  let count : Func nat := λ n, Returns (S n) in
  let g1 := dismiss (construct count) in
  let g2 := fst (move_construct g1) in
  g2 = guard_after (MovedInto (Dismissed (Built count)))
  ∧ spared (MovedInto (Dismissed (Built count))) = true
  ∧ calls (destroy g2 0) = 0
  ∧ after (destroy g2 0) = Returns 0.
Proof. repeat split. Qed.

(** C10, amended.  Take any guard object and its life up to destruction:
    built from a callable or by the move constructor (then it continues the
    life of the guard it was moved out of), with [dismiss()] calls and moves
    out of it in between.  Its destructor enters the cleanup exactly once
    when no [dismiss()] was called and no move out happened, on the guard
    or on the guards it took over from, and not at all otherwise; then it
    leaves the state as the cleanup left it, or untouched.  The destructor
    never lets an exception out, [dismiss()] twice is [dismiss()] once, and
    a guard that was moved from runs nothing. *)
Theorem scope_guard_runs_cleanup_once_unless_released l w :
  calls (destroy (guard_after l) w) = (if untouched l then 1 else 0)
  ∧ after (destroy (guard_after l) w)
    = (if untouched l then Returns (state_of (cleanup_of l w)) else Returns w)
  ∧ thrown (after (destroy (guard_after l) w)) = None
  ∧ dismiss (dismiss (guard_after l)) = dismiss (guard_after l)
  ∧ calls (destroy (snd (move_construct (guard_after l))) w) = 0
  ∧ calls (destroy (guard_after (MovedFrom l)) w) = 0.
Proof.
  pose proof (dismissed_after l) as Hd.
  pose proof (func_after_untouched l) as Hf.
  repeat split; try reflexivity.
  - unfold destroy. rewrite Hd.
    destruct (untouched l); simpl; [rewrite Hf by reflexivity|]; reflexivity.
  - unfold destroy. rewrite Hd.
    destruct (untouched l); simpl; [rewrite Hf by reflexivity|]; reflexivity.
  - apply destroy_returns.
Qed.

(** The three guards of the program: only [elements_guard] is ever
    dismissed, none is moved. *)
Example guard_dismissed_runs_nothing f w :
  destroy (dismiss (make_scope_guard f)) w = {| calls := 0; after := Returns w |}.
Proof. reflexivity. Qed.

Example guard_swallows f w what w' :
  f w = Throws what w' →
  destroy (make_scope_guard f) w = {| calls := 1; after := Returns w' |}.
Proof. intros H. unfold destroy; simpl. rewrite H. reflexivity. Qed.
End ScopeGuardProperties.

(** ** The client registry and the bus watch *)

Section PipelineProperties.
Import Pipeline.
Implicit Types (s : http_stream_pipeline) (k p_socket : GSocket)
  (p_stream : GIOStream) (t : list event) (m : GstMessage)
  (sr : http_stream_pipeline → GstState → GstStateChangeReturn).

(** *** Reading traces *)

Lemma state_changes_app t1 t2 :
  state_changes (t1 ++ t2) = state_changes t1 ++ state_changes t2.
Proof. apply omap_app. Qed.

Lemma closes_app t1 t2 : closes (t1 ++ t2) = closes t1 ++ closes t2.
Proof. apply omap_app. Qed.

Lemma posts_app t1 t2 : posts (t1 ++ t2) = posts t1 ++ posts t2.
Proof. apply omap_app. Qed.

Lemma stop_pending_post s m :
  stop_pending (gst_element_post_message m s) = stop_pending s || is_stop m.
Proof.
  unfold stop_pending; simpl. rewrite existsb_app; simpl.
  by rewrite orb_false_r.
Qed.

(** *** [on_client_socket_removed] *)

Lemma removed_absent k s :
  m_clients s !! k = None →
  on_client_socket_removed k s
  = cerr ("Socket is not in list - ignoring" +:+ nl)
      (cerr ("Client with socket " +:+ hex k +:+ " got removed" +:+ nl) s).
Proof. intros H. unfold on_client_socket_removed; simpl. by rewrite H. Qed.

Lemma removed_clients k s :
  m_clients (on_client_socket_removed k s) = delete k (m_clients s).
Proof.
  unfold on_client_socket_removed; simpl.
  destruct (m_clients s !! k) eqn:E; simpl.
  - by case_decide.
  - by rewrite delete_id.
Qed.

Lemma removed_sink k s :
  sink_sockets (on_client_socket_removed k s) = sink_sockets s.
Proof.
  unfold on_client_socket_removed; simpl.
  destruct (m_clients s !! k); simpl; [by case_decide | done].
Qed.

Lemma removed_gst_state k s :
  gst_state (on_client_socket_removed k s) = gst_state s.
Proof.
  unfold on_client_socket_removed; simpl.
  destruct (m_clients s !! k); simpl; [by case_decide | done].
Qed.

Lemma removed_state_changes k s :
  state_changes (trace (on_client_socket_removed k s)) = state_changes (trace s).
Proof.
  unfold on_client_socket_removed; simpl.
  destruct (m_clients s !! k); simpl; [case_decide|]; simpl;
    rewrite !state_changes_app; simpl; by rewrite ?app_nil_r.
Qed.

Lemma removed_closes k s :
  closes (trace (on_client_socket_removed k s))
  = closes (trace s) ++ option_list (m_clients s !! k).
Proof.
  unfold on_client_socket_removed; simpl.
  destruct (m_clients s !! k); simpl; [case_decide|]; simpl;
    rewrite !closes_app; simpl; by rewrite ?app_nil_r.
Qed.

(** The stop request is posted exactly when the socket was registered and
    the registry is empty without it. *)
Lemma removed_bus k s :
  bus (on_client_socket_removed k s)
  = if decide (is_Some (m_clients s !! k) ∧ delete k (m_clients s) = ∅)
    then bus s ++ [StopPipeline] else bus s.
Proof.
  unfold on_client_socket_removed; cbn [m_clients cerr emit].
  destruct (m_clients s !! k) eqn:E; cbn [m_clients cerr emit set_clients].
  - destruct (decide (delete k (m_clients s) = ∅)) as [H|H]; simpl.
    + rewrite decide_True; [done | by split].
    + rewrite decide_False; [done | by intros [_ ?]].
  - rewrite decide_False; [done | by intros [[? ?] _]].
Qed.

Lemma removed_posts k s :
  posts (trace (on_client_socket_removed k s))
  = if decide (is_Some (m_clients s !! k) ∧ delete k (m_clients s) = ∅)
    then posts (trace s) ++ ["StopPipeline"] else posts (trace s).
Proof.
  unfold on_client_socket_removed; cbn [m_clients cerr emit].
  destruct (m_clients s !! k) eqn:E; cbn [m_clients cerr emit set_clients].
  - destruct (decide (delete k (m_clients s) = ∅)) as [H|H]; simpl.
    + rewrite decide_True by (by split).
      simpl; rewrite !posts_app; simpl; by rewrite ?app_nil_r.
    + rewrite decide_False by (by intros [_ ?]).
      simpl; rewrite !posts_app; simpl; by rewrite ?app_nil_r.
  - rewrite decide_False by (by intros [[? ?] _]).
    simpl; rewrite !posts_app; simpl; by rewrite ?app_nil_r.
Qed.

(** Taking the last entry out is going from one client to none. *)
Lemma last_client_iff (c : gmap GSocket GIOStream) k :
  is_Some (c !! k) ∧ delete k c = ∅ ↔ is_Some (c !! k) ∧ size c = 1.
Proof.
  split; intros [[x Hx] H]; (split; [by eexists|]).
  - pose proof (map_size_delete_Some k c (ex_intro _ x Hx)) as Hs.
    rewrite H, map_size_empty in Hs.
    assert (size c ≠ 0); [|lia].
    apply map_size_non_empty_iff. intros ->. by rewrite lookup_empty in Hx.
  - apply map_size_empty_inv.
    pose proof (map_size_delete_Some k c (ex_intro _ x Hx)). lia.
Qed.

(** *** [play] *)

Lemma play_returns sr b s :
  sr s (target_of b) ≠ GST_STATE_CHANGE_FAILURE →
  play sr b s
  = Returns (set_gst_state (target_of b) (emit (SetState (target_of b)) s)).
Proof.
  intros H. unfold play, gst_element_set_state, target_of in *.
  destruct b; rewrite !decide_False by done; done.
Qed.

Lemma play_throws sr b s :
  sr s (target_of b) = GST_STATE_CHANGE_FAILURE →
  play sr b s
  = Throws "failed to set pipeline state" (emit (SetState (target_of b)) s).
Proof.
  intros H. unfold play, gst_element_set_state, target_of in *.
  destruct b; rewrite !decide_True by done; done.
Qed.

(** Whatever the engine answers, [play] asks once and touches nothing but
    the state of the pipeline. *)
Lemma play_state_of sr b s :
  ∃ st, state_of (play sr b s)
        = set_gst_state st (emit (SetState (target_of b)) s).
Proof.
  destruct (decide (sr s (target_of b) = GST_STATE_CHANGE_FAILURE)) as [H|H].
  - rewrite play_throws by done. exists (gst_state s). by destruct s.
  - rewrite play_returns by done. by eexists.
Qed.

Lemma play_trace sr b s :
  trace (state_of (play sr b s)) = trace s ++ [SetState (target_of b)].
Proof. destruct (play_state_of sr b s) as [st ->]. done. Qed.

Lemma play_clients sr b s : m_clients (state_of (play sr b s)) = m_clients s.
Proof. destruct (play_state_of sr b s) as [st ->]. done. Qed.

Lemma play_sink sr b s : sink_sockets (state_of (play sr b s)) = sink_sockets s.
Proof. destruct (play_state_of sr b s) as [st ->]. done. Qed.

Lemma play_bus sr b s : bus (state_of (play sr b s)) = bus s.
Proof. destruct (play_state_of sr b s) as [st ->]. done. Qed.

(** *** The pairing of registry and sink *)

Lemma elem_of_sink_add k k' (l : list GSocket) :
  k' ∈ sink_add k l ↔ k' = k ∨ k' ∈ l.
Proof.
  unfold sink_add. case_decide; [|by rewrite elem_of_cons].
  split; [by right | by intros [->|]].
Qed.

Lemma NoDup_sink_add k (l : list GSocket) : NoDup l → NoDup (sink_add k l).
Proof. intros H. unfold sink_add. case_decide; [done | by constructor]. Qed.

Lemma paired_ext s s' :
  sink_sockets s' = sink_sockets s → m_clients s' = m_clients s →
  paired s → paired s'.
Proof. unfold paired. by intros -> ->. Qed.

Lemma paired_registered p_stream p_socket s :
  paired s →
  paired (emit_add p_socket (set_clients (<[p_socket := p_stream]> (m_clients s)) s)).
Proof.
  intros [Hnd Hin]. split; simpl.
  - by apply NoDup_sink_add.
  - intros k. rewrite elem_of_sink_add, Hin, lookup_insert.
    case_decide; subst; [split; [by eexists | by left]|].
    split; [intros [->|?]; done | by right].
Qed.

Lemma paired_drop k s : paired s → paired (sink_drop k s).
Proof.
  intros [Hnd Hin]. unfold sink_drop. split.
  - rewrite removed_sink; simpl. by apply NoDup_filter.
  - intros k'. rewrite removed_sink, removed_clients; simpl.
    rewrite list_elem_of_filter, Hin, lookup_delete.
    case_decide; subst.
    + split; [by intros [? _] | by intros [? ?]].
    + split; [by intros [_ ?] | intros ?; split; [congruence | done]].
Qed.

Lemma clear_each_sink (l : list GSocket) s :
  sink_sockets (sink_clear_each l s)
  = match l with [] => sink_sockets s | _ => [] end.
Proof.
  revert s. induction l as [|k rest IH]; intros s; [done|]. simpl.
  rewrite IH, removed_sink; simpl. by destruct rest.
Qed.

Lemma clear_each_clients (l : list GSocket) s k :
  m_clients (sink_clear_each l s) !! k
  = if decide (k ∈ l) then None else m_clients s !! k.
Proof.
  revert s. induction l as [|a rest IH]; intros s; cbn [sink_clear_each].
  - case_decide as H; [by apply elem_of_nil in H | done].
  - rewrite IH, removed_clients. cbn [m_clients set_sink].
    rewrite lookup_delete.
    destruct (decide (k ∈ rest)) as [Hr|Hr].
    + rewrite decide_True; [done | by apply elem_of_cons; right].
    + destruct (decide (a = k)) as [->|Hne].
      * rewrite decide_True; [done | by apply elem_of_cons; left].
      * rewrite decide_False; [done|].
        intros [->|?]%elem_of_cons; done.
Qed.

Lemma clear_each_gst_state (l : list GSocket) s :
  gst_state (sink_clear_each l s) = gst_state s.
Proof.
  revert s. induction l as [|a rest IH]; intros s; simpl; [done|].
  by rewrite IH, removed_gst_state.
Qed.

Lemma clear_each_state_changes (l : list GSocket) s :
  state_changes (trace (sink_clear_each l s)) = state_changes (trace s).
Proof.
  revert s. induction l as [|a rest IH]; intros s; simpl; [done|].
  by rewrite IH, removed_state_changes.
Qed.

(** The sink empty, the registry empty. *)
Lemma clear_empties s :
  paired s →
  sink_sockets (emit_clear s) = [] ∧ m_clients (emit_clear s) = ∅.
Proof.
  intros [Hnd Hin]. unfold emit_clear. split.
  - rewrite clear_each_sink; simpl. by destruct (sink_sockets s).
  - apply map_empty. intros k. rewrite clear_each_clients; simpl.
    case_decide as Hk; [done|].
    rewrite Hin in Hk. by apply eq_None_not_Some.
Qed.

Lemma paired_clear s : paired s → paired (emit_clear s).
Proof.
  intros H. destruct (clear_empties s H) as [Hs Hc].
  split; rewrite Hs; [constructor|].
  intros k. rewrite Hc, lookup_empty. split; [by intros ?%elem_of_nil|].
  by intros [? ?].
Qed.

(** *** What the clear closes *)

Lemma omap_lookup_delete (c : gmap GSocket GIOStream) a (l : list GSocket) :
  a ∉ l → omap (λ k, delete a c !! k) l = omap (λ k, c !! k) l.
Proof.
  induction l as [|b l IH]; intros Ha; [done|].
  apply not_elem_of_cons in Ha as [Hab Hal]. simpl.
  rewrite lookup_delete_ne by done.
  specialize (IH Hal). unfold omap in IH. by rewrite IH.
Qed.

Lemma omap_lookup_cons (c : gmap GSocket GIOStream) a (l : list GSocket) :
  omap (λ k, c !! k) (a :: l) = option_list (c !! a) ++ omap (λ k, c !! k) l.
Proof. simpl. by destruct (c !! a). Qed.

Lemma clear_each_closes (l : list GSocket) s :
  NoDup l →
  closes (trace (sink_clear_each l s))
  = closes (trace s) ++ omap (λ k, m_clients s !! k) l.
Proof.
  intros Hnd. revert s.
  induction Hnd as [|a rest Ha Hnd IH]; intros s; simpl.
  - by rewrite app_nil_r.
  - rewrite IH, removed_closes, removed_clients; simpl.
    rewrite omap_lookup_delete by done.
    rewrite <- app_assoc. by destruct (m_clients s !! a).
Qed.

(** Every connection of the registry, once each. *)
Lemma registry_by_sink (l : list GSocket) (c : gmap GSocket GIOStream) :
  NoDup l → (∀ k, k ∈ l ↔ is_Some (c !! k)) →
  omap (λ k, c !! k) l ≡ₚ (map_to_list c).*2.
Proof.
  intros Hnd. revert c.
  induction Hnd as [|a rest Ha Hnd IH]; intros c Hin.
  - assert (c = ∅) as ->.
    { apply map_empty. intros k. apply eq_None_not_Some.
      rewrite <- Hin. apply not_elem_of_nil. }
    by rewrite map_to_list_empty.
  - destruct (proj1 (Hin a)) as [x Hx]; [by left|].
    rewrite omap_lookup_cons, Hx.
    rewrite <- (map_to_list_delete c a x Hx). simpl. constructor.
    rewrite <- (omap_lookup_delete c a rest Ha). apply IH.
    intros k. rewrite lookup_delete. case_decide; subst.
    + split; [done | by intros [? ?]].
    + rewrite <- Hin, elem_of_cons. split; [by right | by intros [->|]].
Qed.

Lemma clear_closes s :
  paired s → closes (trace (emit_clear s)) ≡ₚ closes (trace s) ++ streams s.
Proof.
  intros [Hnd Hin]. unfold emit_clear, streams.
  rewrite clear_each_closes by done. simpl.
  rewrite closes_app; simpl. rewrite app_nil_r.
  apply Permutation_app_head. by apply registry_by_sink.
Qed.

(** The clear leaves on the bus what was there, and stop requests. *)
Lemma clear_each_bus (l : list GSocket) s :
  ∃ n, bus (sink_clear_each l s) = bus s ++ replicate n StopPipeline.
Proof.
  revert s. induction l as [|a rest IH]; intros s; simpl.
  - exists 0. by rewrite app_nil_r.
  - destruct (IH (on_client_socket_removed a (set_sink rest s))) as [n ->].
    rewrite removed_bus; simpl. case_decide.
    + exists (S n). by rewrite <- app_assoc.
    + by exists n.
Qed.

Lemma removal_events_no_state_change t :
  forallb removal_event t = true → state_changes t = [].
Proof.
  induction t as [|e t IH]; [done|]. cbn [forallb].
  intros [He Ht]%andb_true_iff.
  change (e :: t) with ([e] ++ t).
  rewrite state_changes_app, (IH Ht), app_nil_r. by destruct e.
Qed.

Lemma removed_trace k s :
  ∃ mid, trace (on_client_socket_removed k s) = trace s ++ mid
         ∧ forallb removal_event mid = true
         ∧ closes mid = option_list (m_clients s !! k).
Proof.
  unfold on_client_socket_removed; simpl.
  destruct (m_clients s !! k); simpl; [case_decide|]; simpl;
    rewrite <- ?app_assoc; eexists; (split; [done|]); done.
Qed.

(** The trace of a clear after the signal: removals and nothing else. *)
Lemma clear_each_trace (l : list GSocket) s :
  NoDup l →
  ∃ tail, trace (sink_clear_each l s) = trace s ++ tail
          ∧ forallb removal_event tail = true
          ∧ closes tail = omap (λ k, m_clients s !! k) l.
Proof.
  intros Hnd. revert s. induction Hnd as [|a rest Ha Hnd IH]; intros s.
  - exists []. by rewrite app_nil_r.
  - destruct (IH (on_client_socket_removed a (set_sink rest s)))
      as (tail & Ht & Hs & Hc).
    destruct (removed_trace a (set_sink rest s)) as (mid & Hm & Hms & Hmc).
    cbn [sink_clear_each]. rewrite Ht, Hm. cbn [trace set_sink].
    exists (mid ++ tail). rewrite <- app_assoc. split; [done|].
    rewrite forallb_app, closes_app, Hms, Hs, Hc, Hmc.
    rewrite removed_clients. cbn [m_clients set_sink].
    rewrite omap_lookup_delete by done.
    split; [done|]. by rewrite omap_lookup_cons.
Qed.

(** *** Every state the program reaches is paired *)

Lemma paired_play sr b s : paired s → paired (state_of (play sr b s)).
Proof. apply paired_ext; [apply play_sink | apply play_clients]. Qed.

Lemma paired_add_client sr p_stream p_socket s :
  paired s → paired (state_of (add_client sr p_stream p_socket s)).
Proof.
  intros H. unfold add_client. case_decide.
  - apply paired_play. by apply (paired_registered p_stream p_socket) in H.
  - by apply (paired_registered p_stream p_socket) in H.
Qed.

Lemma paired_stop_then_clear sr s :
  paired s →
  paired (state_of (and_then (play sr false s) (λ s, Returns (emit_clear s)))).
Proof.
  intros H. pose proof (paired_play sr false s H) as Hp.
  destruct (play sr false s); simpl in *; [by apply paired_clear | done].
Qed.

Lemma paired_bus_watch sr m s : paired s → paired (state_of (bus_watch sr m s)).
Proof.
  intros H. destruct m; simpl; try done.
  - by destruct from_toplevel.
  - case_decide; [by apply paired_play | done].
  - by apply paired_stop_then_clear.
  - by apply paired_stop_then_clear.
  - unfold gst_element_set_state; simpl. by case_decide.
Qed.

Lemma paired_perform sr a s : paired s → paired (state_of (perform sr a s)).
Proof.
  intros H. destruct a as [p_stream p_socket|p_socket|m|]; simpl.
  - by apply paired_add_client.
  - case_decide; simpl; [by apply paired_drop | done].
  - done.
  - destruct (bus s); [done|]. by apply paired_bus_watch.
Qed.

Lemma paired_run sr schedule s s' :
  paired s → run sr schedule s = Returns s' → paired s'.
Proof.
  revert s. induction schedule as [|a rest IH]; intros s H; simpl.
  - by intros [= <-].
  - pose proof (paired_perform sr a s H) as Hp.
    destruct (perform sr a s); simpl in *; [by apply IH | done].
Qed.

Lemma paired_constructed p_content_type so_far :
  paired (constructed p_content_type so_far).
Proof.
  split; simpl; [constructor|]. intros k. rewrite lookup_empty.
  split; [by intros ?%elem_of_nil | by intros [? ?]].
Qed.

Lemma reachable_paired sr s : reachable sr s → paired s.
Proof.
  intros (ct & so_far & schedule & H).
  eapply paired_run; [apply paired_constructed | done].
Qed.

(** *** Registering *)

Lemma add_client_unfold sr p_stream p_socket s :
  add_client sr p_stream p_socket s
  = if decide (size (m_clients (registered p_stream p_socket s)) = 1)
    then play sr true
           (cerr ("A client just connected, and pipeline isn't running yet - setting pipeline state to PLAYING" +:+ nl)
                 (registered p_stream p_socket s))
    else Returns (registered p_stream p_socket s).
Proof. reflexivity. Qed.

Lemma add_client_clients sr p_stream p_socket s :
  m_clients (state_of (add_client sr p_stream p_socket s))
  = <[p_socket := p_stream]> (m_clients s).
Proof.
  rewrite add_client_unfold. case_decide; [|done]. by rewrite play_clients.
Qed.

Lemma add_client_state_changes sr p_stream p_socket s :
  state_changes (trace (state_of (add_client sr p_stream p_socket s)))
  = state_changes (trace s)
    ++ (if decide (size (<[p_socket := p_stream]> (m_clients s)) = 1)
        then [GST_STATE_PLAYING] else []).
Proof.
  rewrite add_client_unfold. cbn [registered cerr emit m_clients emit_add set_sink set_clients].
  case_decide.
  - rewrite play_trace; simpl. rewrite !state_changes_app; simpl.
    by rewrite !app_nil_r.
  - simpl. rewrite !state_changes_app; simpl. by rewrite !app_nil_r.
Qed.

(** C3 fails as stated: registering under a key that is there replaces
    the connection the registry holds for it.  Socket 1 is registered with
    connection 10; after [add_client(20, 1)] it is registered with
    connection 20. *)
Lemma add_client_existing_key_replaces_connection :
  m_clients one_client !! 1%N = Some 10%N
  ∧ m_clients (state_of (add_client engine_obliges 20%N 1%N one_client)) !! 1%N = Some 20%N
  ∧ m_clients (state_of (add_client engine_obliges 20%N 1%N one_client))
    ≠ m_clients one_client.
Proof.
  assert (m_clients one_client !! 1%N = Some 10%N) as H1 by (by vm_compute).
  assert (m_clients (state_of (add_client engine_obliges 20%N 1%N one_client)) !! 1%N
          = Some 20%N) as H2 by (by vm_compute).
  split; [done|]. split; [done|].
  intros E. rewrite E, H1 in H2. discriminate.
Qed.

(** C3, amended.  When the key is in the registry already, [add_client]
    leaves the size of the registry and every other entry as they were,
    and puts the new connection in the place of the one held for the
    key. *)
Theorem add_client_existing_key sr p_stream p_socket s :
  is_Some (m_clients s !! p_socket) →
  size (m_clients (state_of (add_client sr p_stream p_socket s))) = size (m_clients s)
  ∧ m_clients (state_of (add_client sr p_stream p_socket s)) !! p_socket = Some p_stream
  ∧ delete p_socket (m_clients (state_of (add_client sr p_stream p_socket s)))
    = delete p_socket (m_clients s).
Proof.
  intros H. rewrite add_client_clients. split; [|split].
  - by apply map_size_insert_Some.
  - apply lookup_insert_eq.
  - apply delete_insert_eq.
Qed.

Lemma add_client_existing_key_witness :
  size (m_clients (state_of (add_client engine_obliges 20%N 1%N one_client)))
  = size (m_clients one_client)
  ∧ m_clients (state_of (add_client engine_obliges 20%N 1%N one_client)) !! 1%N = Some 20%N
  ∧ delete 1%N (m_clients (state_of (add_client engine_obliges 20%N 1%N one_client)))
    = delete 1%N (m_clients one_client).
Proof.
  apply (add_client_existing_key engine_obliges 20%N 1%N one_client).
  exists 10%N. vm_compute. reflexivity.
Defined.

(** C4.  Handling "client-socket-removed" never asks the pipeline for a
    state: the trace gains no state change and the state of the pipeline
    stays.  It posts the stop request exactly when the socket was
    registered and was the only one, so nothing is posted when clients
    remain.  The request is carried out by the bus watch: handed the stop
    request, whether directly or as the oldest message on the bus, it
    calls [play(false)], which asks the pipeline for READY. *)
Theorem last_client_removal_posts_stop_request sr p_socket s rest :
  state_changes (trace (on_client_socket_removed p_socket s)) = state_changes (trace s)
  ∧ gst_state (on_client_socket_removed p_socket s) = gst_state s
  ∧ bus (on_client_socket_removed p_socket s)
    = (if decide (is_Some (m_clients s !! p_socket) ∧ size (m_clients s) = 1)
       then bus s ++ [StopPipeline] else bus s)
  ∧ posts (trace (on_client_socket_removed p_socket s))
    = (if decide (is_Some (m_clients s !! p_socket) ∧ size (m_clients s) = 1)
       then posts (trace s) ++ ["StopPipeline"] else posts (trace s))
  ∧ (if decide (m_clients (on_client_socket_removed p_socket s) = ∅)
     then True else bus (on_client_socket_removed p_socket s) = bus s)
  ∧ bus_watch sr StopPipeline s = play sr false s
  ∧ perform sr Dispatch (set_bus (StopPipeline :: rest) s) = play sr false (set_bus rest s)
  ∧ state_changes (trace (state_of (play sr false s)))
    = state_changes (trace s) ++ [GST_STATE_READY].
Proof.
  split; [apply removed_state_changes|].
  split; [apply removed_gst_state|].
  split.
  { rewrite removed_bus.
    apply decide_ext, last_client_iff. }
  split.
  { rewrite removed_posts.
    apply decide_ext, last_client_iff. }
  split.
  { case_decide as H; [done|]. rewrite removed_bus.
    rewrite removed_clients in H. rewrite decide_False; [done|]. by intros [_ ?]. }
  split; [done|]. split; [done|].
  rewrite play_trace, state_changes_app. done.
Qed.

(** C5, the failing call.  Socket 1 is the only client and the pipeline is
    playing.  [add_client(20, 1)] leaves the registry at one client, no
    step from none to one, and still prints that the pipeline "isn't
    running yet" and calls [play(true)]: the test [size() == 1] after the
    insertion stands for "no clients were connected until now" (the
    comment above it), and is wrong when the one client is registered
    again. *)
Lemma add_client_sole_key_again_plays :
  size (m_clients one_client) = 1
  ∧ gst_state one_client = GST_STATE_PLAYING
  ∧ size (m_clients (state_of (add_client engine_obliges 20%N 1%N one_client))) = 1
  ∧ state_changes (trace (state_of (add_client engine_obliges 20%N 1%N one_client)))
    = state_changes (trace one_client) ++ [GST_STATE_PLAYING]
  ∧ trace (state_of (add_client engine_obliges 20%N 1%N one_client))
    = trace one_client
      ++ [SinkAdd 1%N; Stderr ("Adding socket 1" +:+ nl);
          Stderr ("A client just connected, and pipeline isn't running yet - setting pipeline state to PLAYING" +:+ nl);
          SetState GST_STATE_PLAYING].
Proof. repeat split; by vm_compute. Qed.

(** What [add_client] and the removal do about [play] in general.
    [add_client] calls [play(true)], once, exactly when it leaves the
    registry with one client; a key that is new grows the registry by one,
    so for new keys this is the step from none to one, as the comment in
    the source has it.  Handling a removal never calls [play]. *)
Lemma play_true_when_registration_leaves_one_client sr p_stream p_socket k s :
  state_changes (trace (state_of (add_client sr p_stream p_socket s)))
  = state_changes (trace s)
    ++ (if decide (size (m_clients s) = 0
                   ∨ (size (m_clients s) = 1 ∧ is_Some (m_clients s !! p_socket)))
        then [GST_STATE_PLAYING] else [])
  ∧ size (m_clients (state_of (add_client sr p_stream p_socket s)))
    = (if decide (is_Some (m_clients s !! p_socket))
       then size (m_clients s) else S (size (m_clients s)))
  ∧ state_changes (trace (on_client_socket_removed k s)) = state_changes (trace s)
  ∧ state_changes (trace (state_of (perform sr (SocketRemoved k) s)))
    = state_changes (trace s).
Proof.
  assert (size (<[p_socket := p_stream]> (m_clients s))
          = if decide (is_Some (m_clients s !! p_socket))
            then size (m_clients s) else S (size (m_clients s))) as Hsize.
  { case_decide as H.
    - by apply map_size_insert_Some.
    - apply map_size_insert_None. by apply eq_None_not_Some. }
  split; [|split; [|split]].
  - rewrite add_client_state_changes. f_equal.
    apply decide_ext. rewrite Hsize. case_decide as H.
    + split; [intros ?; by right | intros [E|[? _]]; [|done]].
      exfalso. apply map_size_empty_inv in E.
      destruct H as [x Hx]. by rewrite E, lookup_empty in Hx.
    + split; [intros [= ?]; by left | intros [->|[_ ?]]; done].
  - by rewrite add_client_clients.
  - apply removed_state_changes.
  - cbn [perform]. destruct (decide (k ∈ sink_sockets s)); cbn [state_of]; [|done].
    unfold sink_drop. by rewrite removed_state_changes.
Qed.

(** The scenario of the specification: A registers, B registers, A
    leaves.  One [play(true)], nothing else. *)
Example first_client_plays_once :
  state_changes
    (trace (state_of (run engine_obliges
                        [AddClient 10 1; AddClient 20 2; SocketRemoved 1] fresh)))%N
  = [GST_STATE_PLAYING].
Proof. by vm_compute. Qed.

(** C9.  In every state the program reaches, [add_client] first puts the
    client in the registry and hands its socket to the sink, and only then
    looks at the size and calls [play(true)]: in the object [play] is
    called on, the socket is registered with its connection, is a target
    of the sink, and registry and sink are paired.  On the step from no
    client to one the trace shows the "add" before the state change. *)
Theorem add_client_registers_before_play sr p_stream p_socket s :
  reachable sr s →
  add_client sr p_stream p_socket s
  = (if decide (size (m_clients (registered p_stream p_socket s)) = 1)
     then play sr true
            (cerr ("A client just connected, and pipeline isn't running yet - setting pipeline state to PLAYING" +:+ nl)
                  (registered p_stream p_socket s))
     else Returns (registered p_stream p_socket s))
  ∧ m_clients (registered p_stream p_socket s) !! p_socket = Some p_stream
  ∧ p_socket ∈ sink_sockets (registered p_stream p_socket s)
  ∧ paired (registered p_stream p_socket s)
  ∧ trace (registered p_stream p_socket s)
    = trace s ++ [SinkAdd p_socket; Stderr ("Adding socket " +:+ hex p_socket +:+ nl)]
  ∧ (if decide (m_clients s = ∅)
     then trace (state_of (add_client sr p_stream p_socket s))
          = trace s ++ [SinkAdd p_socket;
                        Stderr ("Adding socket " +:+ hex p_socket +:+ nl);
                        Stderr ("A client just connected, and pipeline isn't running yet - setting pipeline state to PLAYING" +:+ nl);
                        SetState GST_STATE_PLAYING]
     else True).
Proof.
  intros Hr%reachable_paired. split; [done|].
  split; [apply lookup_insert_eq|].
  split; [simpl; apply elem_of_sink_add; by left|].
  split; [by apply (paired_registered p_stream p_socket) in Hr|].
  split; [simpl; by rewrite <- app_assoc|].
  case_decide as He; [|done].
  rewrite add_client_unfold. rewrite decide_True.
  - rewrite play_trace; simpl. by rewrite <- !app_assoc.
  - simpl. rewrite He, insert_empty. apply map_size_singleton.
Qed.

Lemma add_client_registers_before_play_witness :
  add_client engine_obliges 10%N 1%N fresh
  = (if decide (size (m_clients (registered 10%N 1%N fresh)) = 1)
     then play engine_obliges true
            (cerr ("A client just connected, and pipeline isn't running yet - setting pipeline state to PLAYING" +:+ nl)
                  (registered 10%N 1%N fresh))
     else Returns (registered 10%N 1%N fresh))
  ∧ m_clients (registered 10%N 1%N fresh) !! 1%N = Some 10%N
  ∧ 1%N ∈ sink_sockets (registered 10%N 1%N fresh)
  ∧ paired (registered 10%N 1%N fresh)
  ∧ trace (registered 10%N 1%N fresh)
    = trace fresh ++ [SinkAdd 1%N; Stderr ("Adding socket " +:+ hex 1%N +:+ nl)]
  ∧ (if decide (m_clients fresh = ∅)
     then trace (state_of (add_client engine_obliges 10%N 1%N fresh))
          = trace fresh ++ [SinkAdd 1%N;
                        Stderr ("Adding socket " +:+ hex 1%N +:+ nl);
                        Stderr ("A client just connected, and pipeline isn't running yet - setting pipeline state to PLAYING" +:+ nl);
                        SetState GST_STATE_PLAYING]
     else True).
Proof.
  apply (add_client_registers_before_play engine_obliges 10%N 1%N fresh).
  exists "video/ogg", [], []. reflexivity.
Defined.

(** *** End of stream and errors *)

Lemma eos_unfold sr s :
  bus_watch sr GST_MESSAGE_EOS s
  = and_then (play sr false (cerr ("EOS received - halting pipeline" +:+ nl) s))
      (λ s, Returns (emit_clear s)).
Proof. reflexivity. Qed.

Lemma error_unfold sr text debug_info s :
  bus_watch sr (GST_MESSAGE_ERROR text debug_info) s
  = and_then
      (play sr false
         (cerr ("Stopping pipeline due to error" +:+ nl)
            (emit (DotDump "error")
               (cerr (text +:+ "; debug info: " +:+ debug_info +:+ nl)
                  (cerr "ERROR: " s)))))
      (λ s, Returns (emit_clear s)).
Proof. reflexivity. Qed.

(** [play(false); clear], when the engine does not refuse. *)
Lemma stop_then_clear sr s :
  paired s →
  sr s GST_STATE_READY ≠ GST_STATE_CHANGE_FAILURE →
  ∃ s' tail,
    and_then (play sr false s) (λ s, Returns (emit_clear s)) = Returns s'
    ∧ trace s' = trace s ++ [SetState GST_STATE_READY; SinkClear] ++ tail
    ∧ forallb removal_event tail = true
    ∧ closes tail ≡ₚ streams s
    ∧ m_clients s' = ∅
    ∧ sink_sockets s' = []
    ∧ gst_state s' = GST_STATE_READY
    ∧ ∃ n, bus s' = bus s ++ replicate n StopPipeline.
Proof.
  intros Hp Hok. rewrite (play_returns sr false s Hok). cbn [and_then target_of].
  set (s1 := set_gst_state GST_STATE_READY (emit (SetState GST_STATE_READY) s)).
  assert (paired s1) as Hp1 by (by apply (paired_ext s)).
  destruct (clear_empties s1 Hp1) as [Hsink Hclients].
  destruct Hp1 as [Hnd Hin].
  destruct (clear_each_trace (sink_sockets s1) (emit SinkClear s1) Hnd)
    as (tail & Ht & Hq & Hc).
  exists (emit_clear s1), tail. split; [done|].
  split; [unfold emit_clear; rewrite Ht; simpl; by rewrite <- !app_assoc|].
  split; [done|].
  split; [rewrite Hc; by apply registry_by_sink|].
  split; [done|]. split; [done|].
  split; [unfold emit_clear; by rewrite clear_each_gst_state|].
  apply (clear_each_bus (sink_sockets s1) (emit SinkClear s1)).
Qed.

(** C6 fails as stated: with two clients registered and an engine that
    refuses to leave PLAYING, the bus watch is handed the end of stream,
    [play(false)] throws, and the handler is left with both clients still
    registered and no connection closed. *)
Lemma eos_with_refused_stop_keeps_clients :
  let r := run engine_keeps_playing
             [AddClient 10 1; AddClient 20 2; Post GST_MESSAGE_EOS; Dispatch]%N fresh in
  thrown r = Some "failed to set pipeline state"
  ∧ bus (state_of r) = []
  ∧ m_clients (state_of r) !! 1%N = Some 10%N
  ∧ m_clients (state_of r) !! 2%N = Some 20%N
  ∧ size (m_clients (state_of r)) = 2
  ∧ closes (trace (state_of r)) = [].
Proof. by vm_compute. Qed.

(** C6, amended.  In every state the program reaches, when the engine does
    not refuse the READY that [play(false)] asks for, the bus watch
    returns from an end of stream and from an error with the registry and
    the sink empty, and the closes it made are, up to order, the
    connections the registry held: one close for each entry. *)
Theorem fatal_event_closes_every_client_once sr s text debug_info :
  reachable sr s →
  (∀ s0, sr s0 GST_STATE_READY ≠ GST_STATE_CHANGE_FAILURE) →
  ∃ s_eos s_error,
    bus_watch sr GST_MESSAGE_EOS s = Returns s_eos
    ∧ bus_watch sr (GST_MESSAGE_ERROR text debug_info) s = Returns s_error
    ∧ m_clients s_eos = ∅ ∧ m_clients s_error = ∅
    ∧ sink_sockets s_eos = [] ∧ sink_sockets s_error = []
    ∧ closes (trace s_eos) ≡ₚ closes (trace s) ++ streams s
    ∧ closes (trace s_error) ≡ₚ closes (trace s) ++ streams s.
Proof.
  intros Hp%reachable_paired Hok.
  rewrite eos_unfold, error_unfold.
  edestruct (stop_then_clear sr) as (s1 & t1 & -> & Ht1 & _ & Hc1 & He1 & Hs1 & _ & _);
    [|apply Hok|].
  { apply (paired_ext s); [done..|apply Hp]. }
  edestruct (stop_then_clear sr) as (s2 & t2 & -> & Ht2 & _ & Hc2 & He2 & Hs2 & _ & _);
    [|apply Hok|].
  { apply (paired_ext s); [done..|apply Hp]. }
  exists s1, s2. repeat (split; [done|]).
  rewrite Ht1, Ht2; simpl. rewrite !closes_app; simpl.
  rewrite !app_nil_r, Hc1, Hc2. done.
Qed.

Lemma fatal_event_closes_every_client_once_witness :
  ∃ s_eos s_error,
    bus_watch engine_obliges GST_MESSAGE_EOS two_clients = Returns s_eos
    ∧ bus_watch engine_obliges (GST_MESSAGE_ERROR "no more data" "filesrc0") two_clients
      = Returns s_error
    ∧ m_clients s_eos = ∅ ∧ m_clients s_error = ∅
    ∧ sink_sockets s_eos = [] ∧ sink_sockets s_error = []
    ∧ closes (trace s_eos) ≡ₚ closes (trace two_clients) ++ streams two_clients
    ∧ closes (trace s_error) ≡ₚ closes (trace two_clients) ++ streams two_clients.
Proof.
  apply (fatal_event_closes_every_client_once engine_obliges two_clients
           "no more data" "filesrc0").
  - exists "video/ogg", [], [AddClient 10 1; AddClient 20 2]%N.
    vm_compute. reflexivity.
  - intros s0. unfold engine_obliges. discriminate.
Defined.

(** C7 fails as stated: when the engine refuses READY, the handler of the
    end of stream calls [play(false)] and is left by the exception; the
    sink is not cleared and the client's connection stays open. *)
Lemma eos_with_refused_stop_skips_clear :
  let r := bus_watch engine_keeps_playing GST_MESSAGE_EOS one_client in
  run engine_keeps_playing [AddClient 10 1]%N fresh = Returns one_client
  ∧ thrown r = Some "failed to set pipeline state"
  ∧ trace (state_of r)
    = trace one_client ++ [Stderr ("EOS received - halting pipeline" +:+ nl);
                           SetState GST_STATE_READY]
  ∧ sink_sockets (state_of r) = [1%N]
  ∧ m_clients (state_of r) !! 1%N = Some 10%N
  ∧ closes (trace (state_of r)) = [].
Proof. by vm_compute. Qed.

(** C7, amended.  In every state the program reaches, the handler of the
    end of stream first calls [play(false)]; when the engine does not
    refuse, it then clears the sink, and what follows the clear in the
    trace are the removals only: lines on [std::cerr], the stop request,
    and one close for each connection of the registry, which ends up
    empty. *)
Theorem eos_stops_then_clears sr s :
  reachable sr s →
  sr (cerr ("EOS received - halting pipeline" +:+ nl) s) GST_STATE_READY
    ≠ GST_STATE_CHANGE_FAILURE →
  ∃ s' tail,
    bus_watch sr GST_MESSAGE_EOS s = Returns s'
    ∧ trace s' = trace s ++ [Stderr ("EOS received - halting pipeline" +:+ nl);
                             SetState GST_STATE_READY; SinkClear] ++ tail
    ∧ forallb removal_event tail = true
    ∧ closes tail ≡ₚ streams s
    ∧ m_clients s' = ∅.
Proof.
  intros Hp%reachable_paired Hok. rewrite eos_unfold.
  edestruct (stop_then_clear sr) as (s1 & t1 & -> & Ht1 & Hq & Hc1 & He1 & _ & _ & _);
    [|apply Hok|].
  { apply (paired_ext s); [done..|apply Hp]. }
  exists s1, t1. split; [done|].
  split; [rewrite Ht1; simpl; by rewrite <- app_assoc|]. done.
Qed.

Lemma eos_stops_then_clears_witness :
  ∃ s' tail,
    bus_watch engine_obliges GST_MESSAGE_EOS two_clients = Returns s'
    ∧ trace s' = trace two_clients
                 ++ [Stderr ("EOS received - halting pipeline" +:+ nl);
                     SetState GST_STATE_READY; SinkClear] ++ tail
    ∧ forallb removal_event tail = true
    ∧ closes tail ≡ₚ streams two_clients
    ∧ m_clients s' = ∅.
Proof.
  apply (eos_stops_then_clears engine_obliges two_clients).
  - exists "video/ogg", [], [AddClient 10 1; AddClient 20 2]%N.
    vm_compute. reflexivity.
  - unfold engine_obliges. discriminate.
Defined.

(** *** The state of the pipeline follows the registry *)

Lemma request_free_replicate n :
  existsb is_request_state (replicate n StopPipeline) = false.
Proof. induction n; [done|]. simpl. done. Qed.

Lemma in_step_constructed p_content_type so_far :
  in_step (constructed p_content_type so_far).
Proof.
  split; [apply paired_constructed|]. split; [done|].
  rewrite decide_True by done. by left.
Qed.

(** Nothing but the trace and messages that are no stop requests going
    from the front of the bus. *)
Lemma in_step_same s s' :
  m_clients s' = m_clients s → sink_sockets s' = sink_sockets s →
  gst_state s' = gst_state s →
  existsb is_request_state (bus s') = false →
  stop_pending s' = stop_pending s →
  in_step s → in_step s'.
Proof.
  intros Hc Hs Hg Hr Hp (Hpair & _ & H).
  split; [by apply (paired_ext s)|]. split; [done|].
  by rewrite Hc, Hg, Hp.
Qed.

Lemma play_returned sr b s s' :
  play sr b s = Returns s' →
  sr s (target_of b) ≠ GST_STATE_CHANGE_FAILURE
  ∧ s' = set_gst_state (target_of b) (emit (SetState (target_of b)) s).
Proof.
  intros H.
  destruct (decide (sr s (target_of b) = GST_STATE_CHANGE_FAILURE)) as [E|E].
  - by rewrite play_throws in H.
  - rewrite play_returns in H by done. split; [done | congruence].
Qed.

Lemma in_step_add_client sr p_stream p_socket s s' :
  in_step s → stop_pending s = false →
  add_client sr p_stream p_socket s = Returns s' → in_step s'.
Proof.
  intros (Hpair & Hreq & H) Hcalm Hret.
  pose proof (paired_add_client sr p_stream p_socket s Hpair) as Hpair'.
  rewrite Hret in Hpair'. cbn [state_of] in Hpair'.
  rewrite add_client_unfold in Hret.
  cbn [registered m_clients cerr emit emit_add set_sink set_clients] in Hret.
  destruct (decide (size (<[p_socket:=p_stream]> (m_clients s)) = 1)) as [H1|H1].
  - apply play_returned in Hret as [_ ->].
    split; [done|]. split; [done|].
    rewrite decide_False by (simpl; apply insert_non_empty). done.
  - injection Hret as <-. split; [done|]. split; [done|].
    rewrite decide_False by (simpl; apply insert_non_empty). simpl.
    destruct (decide (m_clients s = ∅)) as [E|E]; [|by destruct H].
    exfalso. apply H1. rewrite E, insert_empty. apply map_size_singleton.
Qed.

Lemma in_step_drop k s :
  in_step s → k ∈ sink_sockets s → in_step (sink_drop k s).
Proof.
  intros (Hpair & Hreq & H) Hk.
  split; [by apply paired_drop|].
  assert (is_Some (m_clients s !! k)) as Hsome by (by apply Hpair).
  unfold sink_drop, stop_pending.
  rewrite removed_bus, removed_clients, removed_gst_state.
  cbn [m_clients bus gst_state set_sink].
  destruct (decide (delete k (m_clients s) = ∅)) as [E|E].
  - rewrite decide_True by done. rewrite !existsb_app, Hreq.
    split; [done|]. right. simpl. by rewrite orb_true_r.
  - rewrite decide_False by (by intros [_ ?]).
    split; [done|].
    destruct (decide (m_clients s = ∅)) as [E'|E']; [|done].
    exfalso. apply E. rewrite E'. apply delete_empty.
Qed.

Lemma in_step_post m s :
  in_step s → is_stop m = false → is_request_state m = false →
  in_step (gst_element_post_message m s).
Proof.
  intros Hs Hm Hr. apply (in_step_same s); try done.
  - simpl. rewrite existsb_app. simpl. destruct Hs as (_ & -> & _).
    by rewrite Hr.
  - by rewrite stop_pending_post, Hm, orb_false_r.
Qed.

Lemma in_step_bus_watch sr m rest s s' :
  in_step s → bus s = m :: rest →
  bus_watch sr m (set_bus rest s) = Returns s' → in_step s'.
Proof.
  intros Hs Hb.
  assert (is_request_state m = false ∧ existsb is_request_state rest = false)
    as [Hm Hrest].
  { destruct Hs as (_ & Hr & _). rewrite Hb in Hr. simpl in Hr.
    by apply orb_false_iff in Hr. }
  assert (stop_pending s = is_stop m || stop_pending (set_bus rest s)) as Hstop.
  { unfold stop_pending. by rewrite Hb. }
  assert (is_stop m = false → in_step (set_bus rest s)) as Hpop.
  { intros E. apply (in_step_same s); try done. by rewrite Hstop, E. }
  assert (∀ s1, paired s1 → m_clients s1 = m_clients s → bus s1 = rest →
                and_then (play sr false s1) (λ s, Returns (emit_clear s)) = Returns s' →
                in_step s') as Hfatal.
  { intros s1 Hp1 Hc1 Hb1 Hret.
    destruct (decide (sr s1 GST_STATE_READY = GST_STATE_CHANGE_FAILURE)) as [E|E].
    { by rewrite (play_throws sr false s1 E) in Hret. }
    destruct (stop_then_clear sr s1 Hp1 E)
      as (s2 & tail & Hs2 & _ & _ & _ & He & Hsink & Hg & n & Hbus).
    rewrite Hs2 in Hret. injection Hret as <-. split.
    - split; rewrite Hsink; [constructor|]. intros k.
      rewrite He, lookup_empty. split; [by intros ?%elem_of_nil | by intros [? ?]].
    - split.
      + by rewrite Hbus, existsb_app, Hb1, Hrest, request_free_replicate.
      + rewrite decide_True by done. by left. }
  destruct m; cbn [bus_watch]; try discriminate.
  - destruct from_toplevel; intros [= <-];
      apply (in_step_same (set_bus rest s)); try done; by apply Hpop.
  - case_decide as Hname.
    + intros [_ ->]%play_returned.
      assert (stop_pending s = true) as Hsp.
      { rewrite Hstop. simpl. by rewrite bool_decide_eq_true_2. }
      destruct Hs as (Hpair & _ & H).
      destruct (decide (m_clients s = ∅)) as [E|E];
        [|destruct H as [_ H]; congruence].
      split; [done|]. split; [done|]. simpl.
      rewrite decide_True by done. by left.
    + intros [= <-]. apply Hpop. simpl. by rewrite bool_decide_eq_false_2.
  - apply Hfatal; try done. by destruct Hs as [? _].
  - intros [= <-].
    apply (in_step_same (set_bus rest s)); try done; by apply Hpop.
  - intros [= <-].
    apply (in_step_same (set_bus rest s)); try done; by apply Hpop.
  - apply Hfatal; try done. by destruct Hs as [? _].
  - intros [= <-].
    apply (in_step_same (set_bus rest s)); try done; by apply Hpop.
  - intros [= <-]. by apply Hpop.
Qed.

Lemma in_step_perform sr a s s' :
  in_step s → calm_action a s = true →
  perform sr a s = Returns s' → in_step s'.
Proof.
  intros Hs Hcalm. destruct a as [p_stream p_socket|p_socket|m|]; cbn [perform].
  - apply in_step_add_client; try done.
    simpl in Hcalm. by apply negb_true_iff in Hcalm.
  - destruct (decide (p_socket ∈ sink_sockets s)); intros [= <-]; [|done].
    by apply in_step_drop.
  - intros [= <-]. simpl in Hcalm.
    apply andb_true_iff in Hcalm as [?%negb_true_iff ?%negb_true_iff].
    by apply in_step_post.
  - destruct (bus s) as [|m rest] eqn:Hb; [by intros [= <-]|].
    by apply in_step_bus_watch.
Qed.

(** A calm schedule keeps the program in step, as long as it runs. *)
Lemma in_step_run sr schedule s s' :
  in_step s → calm sr schedule s = true →
  run sr schedule s = Returns s' → in_step s'.
Proof.
  revert s. induction schedule as [|a rest IH]; intros s Hs Hcalm.
  { by intros [= <-]. }
  cbn [calm] in Hcalm. apply andb_true_iff in Hcalm as [Ha Hrest].
  cbn [run]. destruct (perform sr a s) as [s1|] eqn:E; [|done].
  cbn [and_then state_of] in *. apply IH; [|done].
  by apply (in_step_perform sr a s).
Qed.

(** And it runs to the end of every schedule when the engine refuses
    nothing: only [play] throws. *)
Lemma obliging_engine_never_throws sr schedule s :
  (∀ s0 target, sr s0 target ≠ GST_STATE_CHANGE_FAILURE) →
  thrown (run sr schedule s) = None.
Proof.
  intros Hok. revert s. induction schedule as [|a rest IH]; intros s; [done|].
  cbn [run].
  assert (∃ s1, perform sr a s = Returns s1) as [s1 ->]; [|apply IH].
  destruct a as [p_stream p_socket|p_socket|m|]; cbn [perform].
  - rewrite add_client_unfold. case_decide; [|by eexists].
    rewrite play_returns by apply Hok. by eexists.
  - case_decide; by eexists.
  - by eexists.
  - destruct (bus s) as [|m rest']; [by eexists|].
    destruct m; cbn [bus_watch]; try by eexists.
    + destruct from_toplevel; by eexists.
    + case_decide; [|by eexists]. rewrite play_returns by apply Hok. by eexists.
    + rewrite play_returns by apply Hok. by eexists.
    + rewrite play_returns by apply Hok. by eexists.
Qed.

(** C2 fails as stated: a client comes, goes, and the stop request is
    handled.  The registry is empty, nothing waits on the bus, and the
    pipeline is in READY, the state [play(false)] asks for; the program
    never asks for PAUSED. *)
Lemma empty_registry_settles_in_ready :
  let r := run engine_obliges [AddClient 10 1; SocketRemoved 1; Dispatch]%N fresh in
  thrown r = None
  ∧ m_clients (state_of r) = ∅
  ∧ bus (state_of r) = []
  ∧ gst_state (state_of r) = GST_STATE_READY
  ∧ gst_state (state_of r) ≠ GST_STATE_PAUSED.
Proof. repeat split; by vm_compute. Qed.

(** Why the amended claim asks for a calm schedule.  A client that comes
    while the stop request of its predecessor is still on the bus is
    halted by that request: registry not empty, bus empty, READY. *)
Lemma late_stop_request_halts_new_client :
  let r := run engine_obliges
             [AddClient 10 1; SocketRemoved 1; AddClient 20 2; Dispatch]%N fresh in
  thrown r = None
  ∧ m_clients (state_of r) !! 2%N = Some 20%N
  ∧ bus (state_of r) = []
  ∧ gst_state (state_of r) = GST_STATE_READY.
Proof. repeat split; by vm_compute. Qed.

(** And an element may ask for any state; the bus watch follows. *)
Lemma requested_state_is_followed :
  let r := run engine_obliges
             [Post (GST_MESSAGE_REQUEST_STATE GST_STATE_PAUSED "src"); Dispatch] fresh in
  thrown r = None
  ∧ m_clients (state_of r) = ∅
  ∧ bus (state_of r) = []
  ∧ gst_state (state_of r) = GST_STATE_PAUSED.
Proof. repeat split; by vm_compute. Qed.

(** C2, amended.  Let the schedule be calm: stop requests are posted by
    [on_client_socket_removed] only, no element asks for a state of its
    choice, and no client is added while a stop request waits on the bus.
    Then in every state the program reaches with no stop request waiting,
    the pipeline is in READY when the registry is empty and in PLAYING
    when it is not. *)
Theorem settled_state_follows_registry sr schedule p_content_type so_far s :
  calm sr schedule (constructed p_content_type so_far) = true →
  run sr schedule (constructed p_content_type so_far) = Returns s →
  stop_pending s = false →
  gst_state s
  = (if decide (m_clients s = ∅) then GST_STATE_READY else GST_STATE_PLAYING).
Proof.
  intros Hcalm Hrun Hsettled.
  destruct (in_step_run sr schedule _ s
              (in_step_constructed p_content_type so_far) Hcalm Hrun)
    as (_ & _ & H).
  destruct (decide (m_clients s = ∅)); [|by destruct H].
  destruct H as [H|H]; [done | congruence].
Qed.

Lemma settled_state_follows_registry_witness :
  gst_state
    (state_of (run engine_obliges
                 [AddClient 10 1; AddClient 20 2; SocketRemoved 1;
                  Post GST_MESSAGE_LATENCY; SocketRemoved 2; Dispatch; Dispatch]%N
                 fresh))
  = (if decide (m_clients
                  (state_of (run engine_obliges
                     [AddClient 10 1; AddClient 20 2; SocketRemoved 1;
                      Post GST_MESSAGE_LATENCY; SocketRemoved 2; Dispatch; Dispatch]%N
                     fresh)) = ∅)
     then GST_STATE_READY else GST_STATE_PLAYING).
Proof.
  apply (settled_state_follows_registry engine_obliges
           [AddClient 10 1; AddClient 20 2; SocketRemoved 1;
            Post GST_MESSAGE_LATENCY; SocketRemoved 2; Dispatch; Dispatch]%N
           "video/ogg" []).
  - vm_compute. reflexivity.
  - vm_compute. reflexivity.
  - vm_compute. reflexivity.
Defined.
End PipelineProperties.

(** ** Startup *)

Section MainProperties.
Import ScopeGuard Pipeline Main.
Implicit Types (env : startup) (argv : list string) (schedule : list action)
  (sr : http_stream_pipeline → GstState → GstStateChangeReturn).

Lemma fst_leave g (r : Z * list event) : fst (leave g r) = fst r.
Proof. reflexivity. Qed.

(** The guards of [main] are never dismissed: leaving their scope unrefs. *)
Lemma leave_unref object r :
  leave (make_scope_guard (unref object)) r = (fst r, snd r ++ [Unref object]).
Proof. reflexivity. Qed.

(** What [main] returns, case by case.  Only three kinds of failure make
    it return [-1]: too few arguments or a library object that cannot be
    made, a port [std::stoi] throws on, and a listener that does not
    start.  Everything else, a constructor that throws included, ends in
    [return 0]. *)
Lemma main_returns env sr schedule argv :
  fst (main env sr schedule argv)
  = if (length argv <? 5)%nat then (-1)%Z
    else if negb (soup_server_new_ok env) then (-1)%Z
    else if negb (g_main_loop_new_ok env) then (-1)%Z
    else match stoi (nth 1 argv "") with
         | stoi_value _ =>
             match constructor env (nth 2 argv "") [] with
             | Throws _ _ => 0%Z
             | Returns _ =>
                 match soup_server_listen_all_error env with
                 | Some _ => (-1)%Z
                 | None => 0%Z
                 end
             end
         | _ => (-1)%Z
         end.
Proof.
  unfold main.
  destruct (length argv <? 5)%nat; [done|].
  destruct (soup_server_new_ok env); [|done]. cbn [negb]. rewrite fst_leave.
  destruct (g_main_loop_new_ok env); [|done]. cbn [negb]. rewrite fst_leave.
  destruct (stoi (nth 1 argv "")); [|done..].
  unfold serve. destruct (constructor env (nth 2 argv "") []); [|done].
  destruct (soup_server_listen_all_error env); [done|].
  by destruct (run sr schedule _).
Qed.

(** C1, the failing run.  The launch line has no element called "stream":
    the constructor throws, the handler prints the exception, and [main]
    goes on to "Quitting" and [return 0].  The exit status is 0. *)
Theorem main_returns_zero_when_construction_fails :
  main no_stream_element engine_obliges [] argv_8080
  = (0%Z,
     [Unref "cmdline_bin";
      Stderr ("Exception caught: no element with name " +:+ dquote +:+ "stream"
              +:+ dquote +:+ " found" +:+ nl);
      Stderr ("Quitting" +:+ nl);
      Unref "mainloop"; Unref "soup_server"])
  ∧ exit_status (fst (main no_stream_element engine_obliges [] argv_8080)) = 0%Z.
Proof. split; by vm_compute. Qed.

(** The other failures of startup do end in a status that is not 0. *)
Example main_status_without_arguments :
  exit_status (fst (main all_well engine_obliges [] ["gst-soup-server-example"])) = 255%Z.
Proof. by vm_compute. Qed.

(** *** The port *)

Lemma digit_is_no_space c : is_Some (digit_of c) → isspace c = false.
Proof.
  unfold digit_of, isspace. intros [d H].
  destruct ((48 <=? N_of_ascii c) && (N_of_ascii c <=? 57))%N eqn:E; [|done].
  apply andb_true_iff in E as [E1%N.leb_le E2%N.leb_le].
  apply orb_false_iff. split.
  - apply N.eqb_neq. lia.
  - apply andb_false_iff. right. apply N.leb_gt. lia.
Qed.

Lemma skip_spaces_digit s : starts_with_digit s = true → skip_spaces s = s.
Proof.
  destruct s as [|c s]; [done|]. simpl.
  intros H%bool_decide_eq_true. by rewrite digit_is_no_space.
Qed.

(** What the specification calls an integer is never an invalid argument
    for [std::stoi]; it is rejected only when it does not fit [int]. *)
Lemma stoi_of_integer s :
  spec_valid_integer s = true → stoi s ≠ stoi_invalid_argument.
Proof.
  unfold spec_valid_integer, stoi, strtol.
  intros [Hd _]%andb_true_iff.
  assert (∀ c rest, s = String c rest →
            (c = "-"%char ∨ c = "+"%char) → starts_with_digit rest = true →
            match strtol s with Some _ => True | None => False end) as Hsign.
  { intros c rest -> Hc Hr. unfold strtol.
    destruct Hc as [-> | ->]; simpl; by rewrite Hr. }
  destruct s as [|c rest]; [done|].
  destruct (decide (c = "-"%char)) as [->|Hm].
  { specialize (Hsign "-"%char rest eq_refl (or_introl eq_refl) Hd).
    unfold strtol in Hsign. simpl in *. rewrite Hd in *.
    by destruct (_ || _). }
  destruct (decide (c = "+"%char)) as [->|Hp].
  { simpl in *. rewrite Hd. by destruct (_ || _). }
  assert (starts_with_digit (String c rest) = true) as Hd'.
  { destruct c as [[] [] [] [] [] [] [] []]; try done. }
  rewrite (skip_spaces_digit _ Hd').
  assert (match String c rest with
          | String "-"%char r => (true, r)
          | String "+"%char r => (false, r)
          | _ => (false, String c rest)
          end = (false, String c rest)) as ->.
  { destruct c as [[] [] [] [] [] [] [] []]; try done. }
  rewrite Hd'. by destruct (_ || _).
Qed.

(** C8 fails as stated, both ways: "80abc" is no integer, and startup goes
    on to listen on port 80; "99999999999" is an integer, and startup
    stops with the message for an invalid port. *)
Lemma port_check_is_not_integer_check :
  spec_valid_integer "80abc" = false
  ∧ stoi "80abc" = stoi_value 80
  ∧ main all_well engine_obliges [] argv_80abc
    = (0%Z,
       [Unref "srcpad"; Unref "stream_element"; Unref "bus";
        SetState GST_STATE_READY; AddHandler "/"; Listen 80;
        Stderr ("Listening for incoming HTTP requests on port 80" +:+ nl);
        Stderr ("caught signal, stopping mainloop" +:+ nl);
        SetState GST_STATE_NULL; Unref "m_pipeline";
        Stderr ("Quitting" +:+ nl); Unref "mainloop"; Unref "soup_server"])
  ∧ spec_valid_integer "99999999999" = true
  ∧ stoi "99999999999" = stoi_out_of_range
  ∧ main all_well engine_obliges []
      ["gst-soup-server-example"; "99999999999"; "video/ogg"; "videotestsrc"; "name=stream"]
    = ((-1)%Z,
       [Stderr ("Invalid port number " +:+ dquote +:+ "99999999999" +:+ dquote +:+ nl);
        Unref "mainloop"; Unref "soup_server"]).
Proof. repeat split; by vm_compute. Qed.

(** C8, amended.  With enough arguments and the server and main loop made,
    [main] is decided by [std::stoi] on the port argument.  When it throws
    (no digit after white space and sign, or a value that does not fit
    [int]), [main] prints the message that names the argument, builds no
    pipeline, never listens, and returns [-1], exit status 255.  When it
    returns a value, whatever follows the digits, the check is passed and
    [main] goes on to serve on that value taken as [guint]. *)
Theorem port_argument_checked_by_stoi env sr schedule argv :
  (5 ≤ length argv)%nat →
  soup_server_new_ok env = true →
  g_main_loop_new_ok env = true →
  match stoi (nth 1 argv "") with
  | stoi_value v =>
      main env sr schedule argv
      = leave (make_scope_guard (unref "soup_server"))
          (leave (make_scope_guard (unref "mainloop"))
             (serve env sr schedule argv (v mod 2 ^ 32)%Z))
  | stoi_invalid_argument | stoi_out_of_range =>
      main env sr schedule argv
      = ((-1)%Z,
         [Stderr ("Invalid port number " +:+ dquote +:+ nth 1 argv "" +:+ dquote +:+ nl);
          Unref "mainloop"; Unref "soup_server"])
      ∧ exit_status (fst (main env sr schedule argv)) = 255%Z
  end.
Proof.
  intros Hargc Hsoup Hloop. unfold main.
  destruct (Nat.ltb_spec (length argv) 5) as [?|_]; [lia|].
  rewrite Hsoup, Hloop. cbn [negb].
  destruct (stoi (nth 1 argv "")); [done | by split..].
Qed.

Lemma port_argument_checked_by_stoi_witness :
  match stoi (nth 1 argv_80abc "") with
  | stoi_value v =>
      main all_well engine_obliges [] argv_80abc
      = leave (make_scope_guard (unref "soup_server"))
          (leave (make_scope_guard (unref "mainloop"))
             (serve all_well engine_obliges [] argv_80abc (v mod 2 ^ 32)%Z))
  | stoi_invalid_argument | stoi_out_of_range =>
      main all_well engine_obliges [] argv_80abc
      = ((-1)%Z,
         [Stderr ("Invalid port number " +:+ dquote +:+ nth 1 argv_80abc "" +:+ dquote +:+ nl);
          Unref "mainloop"; Unref "soup_server"])
      ∧ exit_status (fst (main all_well engine_obliges [] argv_80abc)) = 255%Z
  end.
Proof.
  apply (port_argument_checked_by_stoi all_well engine_obliges [] argv_80abc).
  - simpl. lia.
  - reflexivity.
  - reflexivity.
Defined.
End MainProperties.

(** * Further properties *)

(** ** The scope guard, moved *)

Section ScopeGuardMoves.
Import ScopeGuard.
Context {W : Type}.
Implicit Types (g : scope_guard_impl W) (w : W).

(** X1.  Moving a guard neither loses nor doubles the cleanup: the new guard
    and the guard left behind together run it as often as the guard would
    have run it had it stayed where it was, and the guard left behind never
    runs it. *)
Theorem move_conserves_cleanup g w w' :
  calls (destroy (fst (move_construct g)) w) + calls (destroy (snd (move_construct g)) w')
  = calls (destroy g w)
  ∧ calls (destroy (snd (move_construct g)) w') = 0
  ∧ after (destroy (fst (move_construct g)) w) = after (destroy g w).
Proof.
  unfold destroy, move_construct; simpl.
  destruct (m_dismissed g); simpl; [done|].
  destruct (m_func g); simpl; repeat split; lia.
Qed.
End ScopeGuardMoves.

(** ** The registry, the bus watch and the request handler *)

Section MoreOfThePipeline.
Import Pipeline Http.
Implicit Types (s : http_stream_pipeline) (k p_socket : GSocket)
  (p_stream : GIOStream) (t : list event) (m : GstMessage)
  (sr : http_stream_pipeline → GstState → GstStateChangeReturn).

(** X2.  In every state the program reaches, the sink delivers to exactly
    the sockets the registry holds, to each once. *)
Theorem registry_and_sink_stay_paired sr s :
  reachable sr s →
  NoDup (sink_sockets s)
  ∧ length (sink_sockets s) = size (m_clients s)
  ∧ list_to_set (sink_sockets s) = dom (m_clients s).
Proof.
  intros [Hnd Hin]%reachable_paired.
  assert (list_to_set (sink_sockets s) = dom (m_clients s)) as Hdom.
  { apply set_eq. intros k. by rewrite elem_of_list_to_set, elem_of_dom. }
  split; [done|]. split; [|done].
  rewrite <- size_dom, <- Hdom. symmetry. by apply size_list_to_set.
Qed.

Lemma registry_and_sink_stay_paired_witness :
  NoDup (sink_sockets two_clients)
  ∧ length (sink_sockets two_clients) = size (m_clients two_clients)
  ∧ list_to_set (sink_sockets two_clients) = dom (m_clients two_clients).
Proof.
  apply (registry_and_sink_stay_paired engine_obliges two_clients).
  exists "video/ogg", [], [AddClient 10 1; AddClient 20 2]%N.
    vm_compute. reflexivity.
Defined.

(** X3.  What handling "client-socket-removed" does to the object: it takes
    the socket out of the registry, closes the connection that was
    registered for it, if there was one, and no other, and touches neither
    the sink nor the state of the pipeline. *)
Theorem removal_closes_what_was_registered k s :
  m_clients (on_client_socket_removed k s) = delete k (m_clients s)
  ∧ closes (trace (on_client_socket_removed k s))
    = closes (trace s) ++ option_list (m_clients s !! k)
  ∧ sink_sockets (on_client_socket_removed k s) = sink_sockets s
  ∧ gst_state (on_client_socket_removed k s) = gst_state s
  ∧ m_content_type (on_client_socket_removed k s) = m_content_type s.
Proof.
  split; [apply removed_clients|]. split; [apply removed_closes|].
  split; [apply removed_sink|]. split; [apply removed_gst_state|].
  unfold on_client_socket_removed; simpl.
  destruct (m_clients s !! k); simpl; [by case_decide | done].
Qed.

(** X4.  A socket reported as removed a second time is ignored: no
    connection is closed again, no second stop request is posted, and the
    registry stays as the first removal left it. *)
Theorem removal_twice_is_removal_once k s :
  m_clients (on_client_socket_removed k (on_client_socket_removed k s))
  = m_clients (on_client_socket_removed k s)
  ∧ closes (trace (on_client_socket_removed k (on_client_socket_removed k s)))
    = closes (trace (on_client_socket_removed k s))
  ∧ bus (on_client_socket_removed k (on_client_socket_removed k s))
    = bus (on_client_socket_removed k s)
  ∧ posts (trace (on_client_socket_removed k (on_client_socket_removed k s)))
    = posts (trace (on_client_socket_removed k s)).
Proof.
  assert (m_clients (on_client_socket_removed k s) !! k = None) as Hgone.
  { rewrite removed_clients. apply lookup_delete_eq. }
  split; [rewrite !removed_clients; by rewrite delete_delete_eq|].
  split; [rewrite (removed_closes k (on_client_socket_removed k s)), Hgone;
          simpl; by rewrite app_nil_r|].
  split.
  - rewrite (removed_bus k (on_client_socket_removed k s)), Hgone.
    rewrite decide_False; [done | by intros [[? ?] _]].
  - rewrite (removed_posts k (on_client_socket_removed k s)), Hgone.
    rewrite decide_False; [done | by intros [[? ?] _]].
Qed.

(** X5.  A client registered under a new socket and then removed leaves the
    registry as it was; the connection closed is the one that was handed
    in, and the stop request is posted exactly when no other client was
    there. *)
Theorem add_then_remove_restores_registry sr p_stream p_socket s :
  m_clients s !! p_socket = None →
  m_clients (on_client_socket_removed p_socket
               (state_of (add_client sr p_stream p_socket s)))
  = m_clients s
  ∧ closes (trace (on_client_socket_removed p_socket
                     (state_of (add_client sr p_stream p_socket s))))
    = closes (trace s) ++ [p_stream]
  ∧ bus (on_client_socket_removed p_socket
           (state_of (add_client sr p_stream p_socket s)))
    = (if decide (m_clients s = ∅) then bus s ++ [StopPipeline] else bus s).
Proof.
  intros Hnew.
  assert (closes (trace (state_of (add_client sr p_stream p_socket s)))
          = closes (trace s)) as Hc.
  { rewrite add_client_unfold. case_decide.
    - rewrite play_trace; simpl. rewrite !closes_app; simpl.
      by rewrite !app_nil_r.
    - simpl. rewrite !closes_app; simpl. by rewrite !app_nil_r. }
  assert (bus (state_of (add_client sr p_stream p_socket s)) = bus s) as Hb.
  { rewrite add_client_unfold. case_decide; [by rewrite play_bus | done]. }
  rewrite removed_clients, removed_closes, removed_bus.
  rewrite add_client_clients, Hc, Hb, lookup_insert_eq, delete_insert_id by done.
  split; [done|]. split; [done|].
  apply decide_ext. split; [by intros [_ ?] | intros ?; split; [by eexists | done]].
Qed.

Lemma add_then_remove_restores_registry_witness :
  m_clients (on_client_socket_removed 2%N
               (state_of (add_client engine_obliges 20%N 2%N one_client)))
  = m_clients one_client
  ∧ closes (trace (on_client_socket_removed 2%N
                     (state_of (add_client engine_obliges 20%N 2%N one_client))))
    = closes (trace one_client) ++ [20%N]
  ∧ bus (on_client_socket_removed 2%N
           (state_of (add_client engine_obliges 20%N 2%N one_client)))
    = (if decide (m_clients one_client = ∅)
       then bus one_client ++ [StopPipeline] else bus one_client).
Proof.
  apply (add_then_remove_restores_registry engine_obliges 20%N 2%N one_client).
  vm_compute. reflexivity.
Defined.

(** X6.  [play] throws exactly when the engine answers FAILURE, with one
    message; then the state of the pipeline is what it was.  Either way it
    has asked the pipeline once, for PLAYING or for READY, and has touched
    neither registry nor bus. *)
Theorem play_throws_exactly_when_refused sr b s :
  thrown (play sr b s)
  = (if decide (sr s (target_of b) = GST_STATE_CHANGE_FAILURE)
     then Some "failed to set pipeline state" else None)
  ∧ gst_state (state_of (play sr b s))
    = (if decide (sr s (target_of b) = GST_STATE_CHANGE_FAILURE)
       then gst_state s else target_of b)
  ∧ trace (state_of (play sr b s))
    = trace s ++ [SetState (if b then GST_STATE_PLAYING else GST_STATE_READY)]
  ∧ m_clients (state_of (play sr b s)) = m_clients s
  ∧ bus (state_of (play sr b s)) = bus s.
Proof.
  split; [|split; [|split; [|split]]].
  - case_decide as H; [by rewrite play_throws | by rewrite play_returns].
  - case_decide as H; [by rewrite play_throws | by rewrite play_returns].
  - rewrite play_trace. by destruct b.
  - apply play_clients.
  - apply play_bus.
Qed.

(** X7.  When [play(true)] throws in [add_client], the registration is not
    taken back: the client stays in the registry and in the sink, its
    connection is not closed, and the pipeline is not playing. *)
Theorem add_client_keeps_client_when_play_throws sr p_stream p_socket s :
  m_clients s = ∅ →
  (∀ s0, sr s0 GST_STATE_PLAYING = GST_STATE_CHANGE_FAILURE) →
  thrown (add_client sr p_stream p_socket s) = Some "failed to set pipeline state"
  ∧ m_clients (state_of (add_client sr p_stream p_socket s)) !! p_socket = Some p_stream
  ∧ p_socket ∈ sink_sockets (state_of (add_client sr p_stream p_socket s))
  ∧ gst_state (state_of (add_client sr p_stream p_socket s)) = gst_state s
  ∧ closes (trace (state_of (add_client sr p_stream p_socket s))) = closes (trace s).
Proof.
  intros He Hno. rewrite add_client_unfold.
  rewrite decide_True by (simpl; rewrite He, insert_empty; apply map_size_singleton).
  rewrite (play_throws sr true) by apply Hno. simpl.
  split; [done|]. split; [apply lookup_insert_eq|].
  split; [apply elem_of_sink_add; by left|]. split; [done|].
  rewrite !closes_app; simpl. by rewrite !app_nil_r.
Qed.

Lemma add_client_keeps_client_when_play_throws_witness :
  thrown (add_client (λ _ _, GST_STATE_CHANGE_FAILURE) 10%N 1%N fresh)
  = Some "failed to set pipeline state"
  ∧ m_clients (state_of (add_client (λ _ _, GST_STATE_CHANGE_FAILURE) 10%N 1%N fresh))
      !! 1%N = Some 10%N
  ∧ 1%N ∈ sink_sockets (state_of (add_client (λ _ _, GST_STATE_CHANGE_FAILURE) 10%N 1%N fresh))
  ∧ gst_state (state_of (add_client (λ _ _, GST_STATE_CHANGE_FAILURE) 10%N 1%N fresh))
    = gst_state fresh
  ∧ closes (trace (state_of (add_client (λ _ _, GST_STATE_CHANGE_FAILURE) 10%N 1%N fresh)))
    = closes (trace fresh).
Proof.
  apply (add_client_keeps_client_when_play_throws
           (λ _ _, GST_STATE_CHANGE_FAILURE) 10%N 1%N fresh).
  - reflexivity.
  - intros s0. reflexivity.
Defined.

(** X8.  A state request from an element never makes the bus watch throw:
    the answer of the engine is not looked at.  The pipeline goes to the
    requested state unless the engine refuses, and the registry is left
    alone, clients or not. *)
Theorem requested_state_is_set_without_check sr requested src_name s :
  thrown (bus_watch sr (GST_MESSAGE_REQUEST_STATE requested src_name) s) = None
  ∧ gst_state (state_of (bus_watch sr (GST_MESSAGE_REQUEST_STATE requested src_name) s))
    = (if decide (sr (cerr ("State change to " +:+ gst_element_state_get_name requested
                            +:+ " was requested by " +:+ src_name +:+ nl) s) requested
                  = GST_STATE_CHANGE_FAILURE)
       then gst_state s else requested)
  ∧ state_changes (trace (state_of (bus_watch sr (GST_MESSAGE_REQUEST_STATE requested src_name) s)))
    = state_changes (trace s) ++ [requested]
  ∧ m_clients (state_of (bus_watch sr (GST_MESSAGE_REQUEST_STATE requested src_name) s))
    = m_clients s
  ∧ closes (trace (state_of (bus_watch sr (GST_MESSAGE_REQUEST_STATE requested src_name) s)))
    = closes (trace s).
Proof.
  cbn [bus_watch state_of thrown]. unfold gst_element_set_state. cbn [snd].
  split; [done|]. split; [by case_decide|].
  split; [case_decide; simpl; rewrite !state_changes_app; simpl; by rewrite app_nil_r|].
  split; [by case_decide|].
  case_decide; simpl; rewrite !closes_app; simpl; by rewrite !app_nil_r.
Qed.

(** X9.  State changes, infos, warnings, latency messages, element messages
    that are no stop request and messages of any other kind are logged at
    most: the bus watch returns and has changed neither registry, sink, bus
    nor the state of the pipeline, closed no connection and asked for no
    state. *)
Theorem logged_messages_change_nothing sr m s :
  log_only m = true →
  thrown (bus_watch sr m s) = None
  ∧ m_clients (state_of (bus_watch sr m s)) = m_clients s
  ∧ sink_sockets (state_of (bus_watch sr m s)) = sink_sockets s
  ∧ bus (state_of (bus_watch sr m s)) = bus s
  ∧ gst_state (state_of (bus_watch sr m s)) = gst_state s
  ∧ state_changes (trace (state_of (bus_watch sr m s))) = state_changes (trace s)
  ∧ closes (trace (state_of (bus_watch sr m s))) = closes (trace s).
Proof.
  intros H. destruct m; try discriminate; cbn [bus_watch].
  - destruct from_toplevel; simpl; repeat split;
      rewrite ?state_changes_app, ?closes_app; simpl; by rewrite ?app_nil_r.
  - simpl in H. apply negb_true_iff, bool_decide_eq_false in H.
    rewrite decide_False by done. done.
  - simpl; repeat split;
      rewrite ?state_changes_app, ?closes_app; simpl; by rewrite ?app_nil_r.
  - simpl; repeat split;
      rewrite ?state_changes_app, ?closes_app; simpl; by rewrite ?app_nil_r.
  - simpl; repeat split;
      rewrite ?state_changes_app, ?closes_app; simpl; by rewrite ?app_nil_r.
  - done.
Qed.

Lemma logged_messages_change_nothing_witness :
  thrown (bus_watch engine_keeps_playing (GST_MESSAGE_ELEMENT "GstNavigationMessage") two_clients)
  = None
  ∧ m_clients (state_of (bus_watch engine_keeps_playing
                           (GST_MESSAGE_ELEMENT "GstNavigationMessage") two_clients))
    = m_clients two_clients
  ∧ sink_sockets (state_of (bus_watch engine_keeps_playing
                              (GST_MESSAGE_ELEMENT "GstNavigationMessage") two_clients))
    = sink_sockets two_clients
  ∧ bus (state_of (bus_watch engine_keeps_playing
                     (GST_MESSAGE_ELEMENT "GstNavigationMessage") two_clients))
    = bus two_clients
  ∧ gst_state (state_of (bus_watch engine_keeps_playing
                           (GST_MESSAGE_ELEMENT "GstNavigationMessage") two_clients))
    = gst_state two_clients
  ∧ state_changes (trace (state_of (bus_watch engine_keeps_playing
                                      (GST_MESSAGE_ELEMENT "GstNavigationMessage") two_clients)))
    = state_changes (trace two_clients)
  ∧ closes (trace (state_of (bus_watch engine_keeps_playing
                               (GST_MESSAGE_ELEMENT "GstNavigationMessage") two_clients)))
    = closes (trace two_clients).
Proof.
  apply (logged_messages_change_nothing engine_keeps_playing
           (GST_MESSAGE_ELEMENT "GstNavigationMessage") two_clients).
  vm_compute. reflexivity.
Defined.

(** X10.  Whatever the schedule and the engine, the only exception that can
    leave a callback while the program runs is the one [play] throws. *)
Theorem only_play_throws sr schedule s :
  match thrown (run sr schedule s) with
  | None => True
  | Some what => what = "failed to set pipeline state"
  end.
Proof.
  assert (∀ b s0, match thrown (play sr b s0) with
                  | None => True
                  | Some what => what = "failed to set pipeline state"
                  end) as Hplay.
  { intros b s0.
    destruct (decide (sr s0 (target_of b) = GST_STATE_CHANGE_FAILURE)).
    - by rewrite play_throws.
    - by rewrite play_returns. }
  revert s. induction schedule as [|a rest IH]; intros s; [done|].
  cbn [run]. destruct (perform sr a s) as [s1|what s1] eqn:E; cbn [and_then].
  { apply IH. }
  cbn [thrown].
  destruct a as [p_stream p_socket|p_socket|m|]; cbn [perform] in E.
  - rewrite add_client_unfold in E. case_decide; [|done].
    specialize (Hplay true (cerr ("A client just connected, and pipeline isn't running yet - setting pipeline state to PLAYING" +:+ nl) (registered p_stream p_socket s))).
    by rewrite E in Hplay.
  - by case_decide.
  - done.
  - destruct (bus s) as [|m rest']; [done|].
    destruct m; cbn [bus_watch] in E; try done.
    + by destruct from_toplevel.
    + case_decide; [|done]. specialize (Hplay false (set_bus rest' s)).
      by rewrite E in Hplay.
    + match type of E with and_then (play _ _ ?s0) _ = _ =>
        specialize (Hplay false s0); destruct (play sr false s0); [done|] end.
      cbn [and_then] in E. injection E as <- _. done.
    + match type of E with and_then (play _ _ ?s0) _ = _ =>
        specialize (Hplay false s0); destruct (play sr false s0); [done|] end.
      cbn [and_then] in E. injection E as <- _. done.
Qed.

(** X12.  An end of stream that finds no client registered stops the
    pipeline and clears the sink, and that is all: no connection is closed
    and no stop request is posted.  So a second end of stream, or one after
    an error, does no harm. *)
Theorem eos_without_clients_only_stops sr s :
  reachable sr s →
  m_clients s = ∅ →
  sr (cerr ("EOS received - halting pipeline" +:+ nl) s) GST_STATE_READY
    ≠ GST_STATE_CHANGE_FAILURE →
  ∃ s',
    bus_watch sr GST_MESSAGE_EOS s = Returns s'
    ∧ trace s' = trace s ++ [Stderr ("EOS received - halting pipeline" +:+ nl);
                             SetState GST_STATE_READY; SinkClear]
    ∧ bus s' = bus s
    ∧ m_clients s' = ∅
    ∧ gst_state s' = GST_STATE_READY.
Proof.
  intros [Hnd Hin]%reachable_paired He Hok.
  assert (sink_sockets s = []) as Hsink.
  { destruct (sink_sockets s) as [|k l] eqn:E; [done|]. exfalso.
    destruct (proj1 (Hin k)) as [x Hx]; [by left|].
    by rewrite He, lookup_empty in Hx. }
  rewrite eos_unfold, play_returns by done.
  cbn [and_then target_of]. unfold emit_clear. simpl. rewrite Hsink. simpl.
  eexists. split; [done|]. simpl. rewrite <- !app_assoc. done.
Qed.

Lemma eos_without_clients_only_stops_witness :
  ∃ s',
    bus_watch engine_obliges GST_MESSAGE_EOS fresh = Returns s'
    ∧ trace s' = trace fresh ++ [Stderr ("EOS received - halting pipeline" +:+ nl);
                                 SetState GST_STATE_READY; SinkClear]
    ∧ bus s' = bus fresh
    ∧ m_clients s' = ∅
    ∧ gst_state s' = GST_STATE_READY.
Proof.
  apply (eos_without_clients_only_stops engine_obliges fresh).
  - exists "video/ogg", [], []. reflexivity.
  - reflexivity.
  - unfold engine_obliges. discriminate.
Defined.

(** *** The request handler *)

Lemma content_type_kept_by_step sr a s :
  m_content_type (state_of (perform sr a s)) = m_content_type s.
Proof.
  assert (∀ b s0, m_content_type (state_of (play sr b s0)) = m_content_type s0)
    as Hplay.
  { intros b s0. destruct (play_state_of sr b s0) as [st ->]. done. }
  assert (∀ l s0, m_content_type (sink_clear_each l s0) = m_content_type s0)
    as Hclear.
  { induction l as [|k l IH]; intros s0; [done|]. cbn [sink_clear_each].
    rewrite IH. unfold on_client_socket_removed; simpl.
    destruct (m_clients s0 !! k); simpl; [by case_decide | done]. }
  assert (∀ s0, m_content_type
                  (state_of (and_then (play sr false s0) (λ s, Returns (emit_clear s))))
                = m_content_type s0) as Hfatal.
  { intros s0. specialize (Hplay false s0).
    destruct (play sr false s0); cbn [and_then state_of] in *; [|done].
    unfold emit_clear. by rewrite Hclear. }
  destruct a as [p_stream p_socket|p_socket|m|]; cbn [perform].
  - rewrite add_client_unfold. case_decide; [by rewrite Hplay | done].
  - case_decide; [|done]. cbn [state_of]. unfold sink_drop, on_client_socket_removed; simpl.
    destruct (m_clients s !! p_socket); simpl; [by case_decide | done].
  - done.
  - destruct (bus s) as [|m rest]; [done|].
    destruct m; cbn [bus_watch]; try done.
    + by destruct from_toplevel.
    + case_decide; [by rewrite Hplay | done].
    + by rewrite Hfatal.
    + by rewrite Hfatal.
    + unfold gst_element_set_state; simpl. by case_decide.
Qed.

Lemma content_type_kept_by_run sr schedule s s' :
  run sr schedule s = Returns s' → m_content_type s' = m_content_type s.
Proof.
  revert s. induction schedule as [|a rest IH]; intros s; [by intros [= <-]|].
  cbn [run]. pose proof (content_type_kept_by_step sr a s) as H.
  destruct (perform sr a s); cbn [and_then state_of] in *; [|done].
  intros ?%IH. congruence.
Qed.

(** X13.  However long the program has run, the handler answers a request
    with HTTP/1.0, status 200, no length (the body ends when the connection
    is closed) and the content type the program was started with, whatever
    the message held before; and it leaves exactly one more callback on
    "wrote-headers", which hands the socket and the connection of this
    client, and no other, to [add_client]. *)
Theorem handler_frames_an_endless_response sr schedule p_content_type so_far s
    p_msg p_client :
  run sr schedule (constructed p_content_type so_far) = Returns s →
  http_version (http_request_handler s p_msg p_client) = SOUP_HTTP_1_0
  ∧ encoding (http_request_handler s p_msg p_client) = SOUP_ENCODING_EOF
  ∧ content_type (http_request_handler s p_msg p_client) = Some p_content_type
  ∧ status_code (http_request_handler s p_msg p_client) = 200%Z
  ∧ wrote_headers (http_request_handler s p_msg p_client)
    = wrote_headers p_msg ++ [{| m_client := p_client |}]
  ∧ wrote_headers_cb sr {| m_client := p_client |} s
    = perform sr (AddClient (connection p_client) (gsocket p_client)) s.
Proof.
  intros H%content_type_kept_by_run. repeat split.
  simpl. unfold get_content_type. by rewrite H.
Qed.

Lemma handler_frames_an_endless_response_witness :
  http_version (http_request_handler two_clients
                  {| http_version := SOUP_HTTP_1_1; encoding := SOUP_ENCODING_CHUNKED;
                     content_type := None; status_code := 0; wrote_headers := [] |}
                  {| gsocket := 3%N; connection := 30%N |}) = SOUP_HTTP_1_0
  ∧ encoding (http_request_handler two_clients
                  {| http_version := SOUP_HTTP_1_1; encoding := SOUP_ENCODING_CHUNKED;
                     content_type := None; status_code := 0; wrote_headers := [] |}
                  {| gsocket := 3%N; connection := 30%N |}) = SOUP_ENCODING_EOF
  ∧ content_type (http_request_handler two_clients
                  {| http_version := SOUP_HTTP_1_1; encoding := SOUP_ENCODING_CHUNKED;
                     content_type := None; status_code := 0; wrote_headers := [] |}
                  {| gsocket := 3%N; connection := 30%N |}) = Some "video/ogg"
  ∧ status_code (http_request_handler two_clients
                  {| http_version := SOUP_HTTP_1_1; encoding := SOUP_ENCODING_CHUNKED;
                     content_type := None; status_code := 0; wrote_headers := [] |}
                  {| gsocket := 3%N; connection := 30%N |}) = 200%Z
  ∧ wrote_headers (http_request_handler two_clients
                  {| http_version := SOUP_HTTP_1_1; encoding := SOUP_ENCODING_CHUNKED;
                     content_type := None; status_code := 0; wrote_headers := [] |}
                  {| gsocket := 3%N; connection := 30%N |})
    = [] ++ [{| m_client := {| gsocket := 3%N; connection := 30%N |} |}]
  ∧ wrote_headers_cb engine_obliges
      {| m_client := {| gsocket := 3%N; connection := 30%N |} |} two_clients
    = perform engine_obliges (AddClient 30%N 3%N) two_clients.
Proof.
  apply (handler_frames_an_endless_response engine_obliges
           [AddClient 10 1; AddClient 20 2]%N "video/ogg" [] two_clients
           {| http_version := SOUP_HTTP_1_1; encoding := SOUP_ENCODING_CHUNKED;
              content_type := None; status_code := 0; wrote_headers := [] |}
           {| gsocket := 3%N; connection := 30%N |}).
  vm_compute. reflexivity.
Defined.

(** *** No connection is lost, none is closed twice *)

Lemma add_client_closes sr p_stream p_socket s :
  closes (trace (state_of (add_client sr p_stream p_socket s))) = closes (trace s).
Proof.
  rewrite add_client_unfold. case_decide.
  - rewrite play_trace; simpl. rewrite !closes_app; simpl. by rewrite !app_nil_r.
  - simpl. rewrite !closes_app; simpl. by rewrite !app_nil_r.
Qed.

Lemma streams_same s s' : m_clients s' = m_clients s → streams s' = streams s.
Proof. unfold streams. by intros ->. Qed.

Lemma accounted_step sr a s s1 :
  paired s →
  new_sockets sr [a] s = true →
  perform sr a s = Returns s1 →
  closes (trace s1) ++ streams s1 ≡ₚ closes (trace s) ++ streams s ++ handed [a].
Proof.
  intros Hp Hnew Hret.
  destruct a as [p_stream p_socket|p_socket|m|]; cbn [perform] in Hret.
  - cbn [new_sockets] in Hnew. rewrite andb_true_r in Hnew.
    apply bool_decide_eq_true in Hnew.
    pose proof (add_client_closes sr p_stream p_socket s) as Hc.
    pose proof (add_client_clients sr p_stream p_socket s) as Hm.
    rewrite Hret in Hc, Hm. cbn [state_of] in Hc, Hm.
    rewrite Hc. unfold streams. rewrite Hm, map_to_list_insert by done.
    simpl. apply Permutation_app_head. apply Permutation_cons_append.
  - simpl. rewrite app_nil_r.
    destruct (decide (p_socket ∈ sink_sockets s)) as [Hin|]; injection Hret as <-; [|done].
    destruct (proj1 (proj2 Hp p_socket) Hin) as [x Hx].
    unfold sink_drop. rewrite removed_closes. cbn [m_clients set_sink]. rewrite Hx.
    unfold streams. rewrite removed_clients. cbn [m_clients set_sink option_list].
    rewrite <- (map_to_list_delete _ _ _ Hx). simpl.
    rewrite <- app_assoc. done.
  - injection Hret as <-. simpl. by rewrite app_nil_r.
  - simpl. rewrite app_nil_r.
    destruct (bus s) as [|m rest] eqn:Hb; [by injection Hret as <-|].
    assert (∀ s0, paired s0 → closes (trace s0) = closes (trace s) →
                  m_clients s0 = m_clients s →
                  and_then (play sr false s0) (λ s, Returns (emit_clear s)) = Returns s1 →
                  closes (trace s1) ++ streams s1 ≡ₚ closes (trace s) ++ streams s)
      as Hfatal.
    { intros s0 Hp0 Hc0 Hm0 Hret0.
      destruct (decide (sr s0 GST_STATE_READY = GST_STATE_CHANGE_FAILURE)) as [E|E].
      { by rewrite (play_throws sr false s0 E) in Hret0. }
      destruct (stop_then_clear sr s0 Hp0 E)
        as (s2 & tail & Hs2 & Ht & _ & Hc & He & _).
      rewrite Hs2 in Hret0. injection Hret0 as <-.
      unfold streams at 1. rewrite He, map_to_list_empty, Ht. simpl.
      rewrite app_nil_r, !closes_app. simpl.
      rewrite Hc0, Hc. by rewrite (streams_same s s0). }
    destruct m; cbn [bus_watch] in Hret.
    + destruct from_toplevel; injection Hret as <-; [|done].
      simpl. rewrite !closes_app. simpl. by rewrite !app_nil_r.
    + case_decide; [|by injection Hret as <-].
      apply play_returned in Hret as [_ ->]. simpl.
      rewrite closes_app. simpl. by rewrite app_nil_r.
    + apply Hfatal in Hret; try done.
      simpl. rewrite closes_app. simpl. by rewrite app_nil_r.
    + injection Hret as <-. simpl. rewrite !closes_app. simpl. by rewrite !app_nil_r.
    + injection Hret as <-. simpl. rewrite !closes_app. simpl. by rewrite !app_nil_r.
    + apply Hfatal in Hret; try done.
      simpl. rewrite !closes_app. simpl. by rewrite !app_nil_r.
    + injection Hret as <-. unfold gst_element_set_state. simpl.
      case_decide; simpl; rewrite !closes_app; simpl; by rewrite !app_nil_r.
    + injection Hret as <-. simpl. rewrite !closes_app. simpl. by rewrite !app_nil_r.
    + by injection Hret as <-.
Qed.

Lemma accounted_run sr schedule s s' :
  paired s →
  new_sockets sr schedule s = true →
  run sr schedule s = Returns s' →
  closes (trace s') ++ streams s' ≡ₚ closes (trace s) ++ streams s ++ handed schedule.
Proof.
  revert s. induction schedule as [|a rest IH]; intros s Hp Hnew Hret.
  { injection Hret as <-. simpl. by rewrite app_nil_r. }
  cbn [new_sockets] in Hnew. apply andb_true_iff in Hnew as [Ha Hrest].
  cbn [run] in Hret.
  pose proof (paired_perform sr a s Hp) as Hp1.
  destruct (perform sr a s) as [s1|] eqn:E; [|done]. cbn [and_then state_of] in *.
  rewrite (IH s1 Hp1 Hrest Hret).
  assert (new_sockets sr [a] s = true) as Ha1.
  { cbn [new_sockets]. by rewrite Ha. }
  pose proof (accounted_step sr a s s1 Hp Ha1 E) as Hstep.
  change (a :: rest) with ([a] ++ rest). unfold handed in *.
  rewrite omap_app, !app_assoc. apply Permutation_app_tail.
  rewrite <- !app_assoc. exact Hstep.
Qed.

(** X11.  As long as every client comes with a socket that is not in the
    registry, every connection handed to [add_client] is accounted for at
    any moment: it is in the registry and open, or it has been closed, and
    then once.  The closes made so far and the connections registered now
    are, together and up to order, the connections handed in. *)
Theorem every_connection_accounted_for sr schedule p_content_type s :
  new_sockets sr schedule (constructed p_content_type []) = true →
  run sr schedule (constructed p_content_type []) = Returns s →
  closes (trace s) ++ streams s ≡ₚ handed schedule.
Proof.
  intros Hnew Hret.
  apply (accounted_run sr schedule _ s (paired_constructed _ _) Hnew Hret).
Qed.

Lemma every_connection_accounted_for_witness :
  closes (trace (state_of (run engine_obliges
                   [AddClient 10 1; AddClient 20 2; SocketRemoved 1; AddClient 30 1;
                    Post GST_MESSAGE_EOS; Dispatch; AddClient 40 4]%N fresh)))
  ++ streams (state_of (run engine_obliges
                   [AddClient 10 1; AddClient 20 2; SocketRemoved 1; AddClient 30 1;
                    Post GST_MESSAGE_EOS; Dispatch; AddClient 40 4]%N fresh))
  ≡ₚ handed [AddClient 10 1; AddClient 20 2; SocketRemoved 1; AddClient 30 1;
             Post GST_MESSAGE_EOS; Dispatch; AddClient 40 4]%N.
Proof.
  apply (every_connection_accounted_for engine_obliges
           [AddClient 10 1; AddClient 20 2; SocketRemoved 1; AddClient 30 1;
            Post GST_MESSAGE_EOS; Dispatch; AddClient 40 4]%N "video/ogg").
  - vm_compute. reflexivity.
  - vm_compute. reflexivity.
Defined.

(** X14.  Registering under a socket that is in the registry closes
    nothing: the connection that was held for the socket is out of the
    registry without having been closed, and the registry holds the new one
    in its place. *)
Theorem add_client_drops_replaced_connection_unclosed sr p_stream p_socket old s :
  m_clients s !! p_socket = Some old →
  closes (trace (state_of (add_client sr p_stream p_socket s))) = closes (trace s)
  ∧ streams s ≡ₚ old :: (map_to_list (delete p_socket (m_clients s))).*2
  ∧ streams (state_of (add_client sr p_stream p_socket s))
    ≡ₚ p_stream :: (map_to_list (delete p_socket (m_clients s))).*2.
Proof.
  intros Hold. split; [apply add_client_closes|]. unfold streams. split.
  - by rewrite <- (map_to_list_delete _ _ _ Hold).
  - rewrite add_client_clients, <- insert_delete_eq.
    by rewrite map_to_list_insert by apply lookup_delete_eq.
Qed.

Lemma add_client_drops_replaced_connection_unclosed_witness :
  closes (trace (state_of (add_client engine_obliges 20%N 1%N one_client)))
  = closes (trace one_client)
  ∧ streams one_client ≡ₚ 10%N :: (map_to_list (delete 1%N (m_clients one_client))).*2
  ∧ streams (state_of (add_client engine_obliges 20%N 1%N one_client))
    ≡ₚ 20%N :: (map_to_list (delete 1%N (m_clients one_client))).*2.
Proof.
  apply (add_client_drops_replaced_connection_unclosed
           engine_obliges 20%N 1%N 10%N one_client).
  vm_compute. reflexivity.
Defined.
End MoreOfThePipeline.

(** ** Startup and teardown *)

Section MoreOfStartup.
Import ScopeGuard Pipeline Main.
Implicit Types (env : startup) (argv : list string) (schedule : list action)
  (s : http_stream_pipeline) (t : list event)
  (sr : http_stream_pipeline → GstState → GstStateChangeReturn).

(** X15.  The constructor throws in five cases, each with its own message,
    and returns an object in READY with no client otherwise.  Before it
    throws it has released what it had made so far: nothing when the launch
    line does not parse; the bin when there is no element "stream"; the
    element and the bin when the element has no "src" pad; the pipeline,
    which owns the rest by then, when READY is refused.  When the sink
    cannot be made, the element "stream", released once already after the
    ghost pad was added, is released a second time by the guard. *)
Theorem constructor_outcome env p_content_type so_far :
  constructor env p_content_type so_far
  = match gst_parse_launchv_error env with
    | Some message =>
        Throws ("could not parse pipeline: " +:+ message)
          (constructed p_content_type so_far)
    | None =>
        if negb (stream_element_found env) then
          Throws ("no element with name " +:+ dquote +:+ "stream" +:+ dquote +:+ " found")
            (constructed p_content_type (so_far ++ [Unref "cmdline_bin"]))
        else if negb (src_pad_found env) then
          Throws ("no " +:+ dquote +:+ "src" +:+ dquote +:+ " pad in element "
                  +:+ dquote +:+ "stream" +:+ dquote +:+ " found" +:+ nl)
            (constructed p_content_type
               (so_far ++ [Unref "stream_element"; Unref "cmdline_bin"]))
        else if negb (multisocketsink_made env) then
          Throws "could not create multisocketsink"
            (constructed p_content_type
               (so_far ++ [Unref "srcpad"; Unref "stream_element";
                           Unref "stream_element"; Unref "cmdline_bin"]))
        else if decide (set_state_ready_return env = GST_STATE_CHANGE_FAILURE) then
          Throws "failed to set pipeline state to READY"
            (constructed p_content_type
               (so_far ++ [Unref "srcpad"; Unref "stream_element"; Unref "bus";
                           SetState GST_STATE_READY; Unref "m_pipeline"]))
        else
          Returns
            (constructed p_content_type
               (so_far ++ [Unref "srcpad"; Unref "stream_element"; Unref "bus";
                           SetState GST_STATE_READY]))
    end.
Proof.
  unfold constructor, with_guard, constructor_body.
  destruct (gst_parse_launchv_error env) as [message|]; [done|].
  destruct (stream_element_found env); cbn [negb]; [|done].
  destruct (src_pad_found env); cbn [negb];
    [|simpl; by rewrite <- !app_assoc].
  destruct (multisocketsink_made env); cbn [negb];
    [|simpl; by rewrite <- !app_assoc].
  case_decide; simpl; by rewrite <- !app_assoc.
Qed.

(** *** Teardown *)

Lemma destructor_trace sr s :
  trace (destructor sr s) = trace s ++ [SetState GST_STATE_NULL; Unref "m_pipeline"].
Proof.
  unfold destructor, gst_element_set_state; simpl.
  case_decide; simpl; by rewrite <- app_assoc.
Qed.

Lemma constructor_returned env p_content_type so_far pipeline :
  constructor env p_content_type so_far = Returns pipeline →
  pipeline = constructed p_content_type
               (so_far ++ [Unref "srcpad"; Unref "stream_element"; Unref "bus";
                           SetState GST_STATE_READY]).
Proof.
  unfold constructor, with_guard, constructor_body.
  destruct (gst_parse_launchv_error env) as [message|]; [done|].
  destruct (stream_element_found env); cbn [negb]; [|done].
  destruct (src_pad_found env); cbn [negb]; [|done].
  destruct (multisocketsink_made env); cbn [negb]; [|done].
  case_decide; [done|]. simpl. rewrite <- !app_assoc. by intros [= <-].
Qed.

Lemma constructor_never_listens env p_content_type :
  listens (trace (state_of (constructor env p_content_type []))) = [].
Proof.
  unfold constructor, with_guard, constructor_body.
  destruct (gst_parse_launchv_error env) as [message|]; [done|].
  destruct (stream_element_found env); cbn [negb]; [|done].
  destruct (src_pad_found env); cbn [negb]; [|done].
  destruct (multisocketsink_made env); cbn [negb]; [|done].
  by case_decide.
Qed.

(** The callbacks cause no event of startup or teardown. *)
Lemma startup_events_removed k s :
  List.filter startup_event (trace (on_client_socket_removed k s))
  = List.filter startup_event (trace s).
Proof.
  unfold on_client_socket_removed; simpl.
  destruct (m_clients s !! k); simpl; [case_decide|]; simpl;
    rewrite !List.filter_app; simpl; by rewrite ?app_nil_r.
Qed.

Lemma startup_events_clear_each (l : list GSocket) s :
  List.filter startup_event (trace (sink_clear_each l s))
  = List.filter startup_event (trace s).
Proof.
  revert s. induction l as [|k l IH]; intros s; [done|].
  cbn [sink_clear_each]. by rewrite IH, startup_events_removed.
Qed.

Lemma startup_events_play sr b s :
  List.filter startup_event (trace (state_of (play sr b s)))
  = List.filter startup_event (trace s).
Proof.
  rewrite play_trace, List.filter_app. simpl. by rewrite app_nil_r.
Qed.

Lemma startup_events_stop_then_clear sr s :
  List.filter startup_event
    (trace (state_of (and_then (play sr false s) (λ s, Returns (emit_clear s)))))
  = List.filter startup_event (trace s).
Proof.
  pose proof (startup_events_play sr false s) as H.
  destruct (play sr false s) as [s1|what s1]; cbn [and_then state_of] in *; [|done].
  unfold emit_clear. rewrite startup_events_clear_each. simpl.
  rewrite List.filter_app. simpl. by rewrite app_nil_r.
Qed.

Lemma startup_events_step sr a s :
  List.filter startup_event (trace (state_of (perform sr a s)))
  = List.filter startup_event (trace s).
Proof.
  destruct a as [p_stream p_socket|p_socket|m|]; cbn [perform].
  - rewrite add_client_unfold. case_decide.
    + rewrite startup_events_play. simpl.
      rewrite !List.filter_app. simpl. by rewrite !app_nil_r.
    + simpl. rewrite !List.filter_app. simpl. by rewrite !app_nil_r.
  - case_decide; [|done]. cbn [state_of]. unfold sink_drop.
    by rewrite startup_events_removed.
  - done.
  - destruct (bus s) as [|m rest]; [done|].
    destruct m; cbn [bus_watch].
    + destruct from_toplevel; simpl; [|done].
      rewrite !List.filter_app. simpl. by rewrite !app_nil_r.
    + case_decide; [by rewrite startup_events_play | done].
    + rewrite startup_events_stop_then_clear. simpl.
      rewrite !List.filter_app. simpl. by rewrite !app_nil_r.
    + simpl. rewrite !List.filter_app. simpl. by rewrite !app_nil_r.
    + simpl. rewrite !List.filter_app. simpl. by rewrite !app_nil_r.
    + rewrite startup_events_stop_then_clear. simpl.
      rewrite !List.filter_app. simpl. by rewrite !app_nil_r.
    + unfold gst_element_set_state. simpl.
      case_decide; simpl; rewrite !List.filter_app; simpl; by rewrite !app_nil_r.
    + simpl. rewrite !List.filter_app. simpl. by rewrite !app_nil_r.
    + done.
Qed.

Lemma startup_events_run sr schedule s :
  List.filter startup_event (trace (state_of (run sr schedule s)))
  = List.filter startup_event (trace s).
Proof.
  revert s. induction schedule as [|a rest IH]; intros s; [done|].
  cbn [run]. pose proof (startup_events_step sr a s) as H.
  destruct (perform sr a s) as [s1|what s1]; cbn [and_then state_of] in *.
  - by rewrite IH.
  - done.
Qed.

Lemma listens_of_startup_events t :
  listens t = listens (List.filter startup_event t).
Proof.
  induction t as [|e t IH]; [done|].
  change (e :: t) with ([e] ++ t). unfold listens in *.
  rewrite List.filter_app, !omap_app, <- IH. by destruct e.
Qed.

Lemma count_unref_of_startup_events object t :
  count_occ event_eq_dec t (Unref object)
  = count_occ event_eq_dec (List.filter startup_event t) (Unref object).
Proof.
  induction t as [|e t IH]; [done|].
  change (e :: t) with ([e] ++ t).
  rewrite List.filter_app, !count_occ_app, <- IH. f_equal.
  destruct e; simpl; try done; by destruct (event_eq_dec _ _).
Qed.

(** The trace of the program from the construction of the pipeline to the
    moment its destructor is entered: construction, handler, listener, and
    whatever the callbacks did. *)
Lemma served_events sr schedule p_content_type port :
  List.filter startup_event
    (trace (state_of
       (run sr schedule
          (cerr ("Listening for incoming HTTP requests on port " +:+ dec port +:+ nl)
             (emit (Listen port)
                (emit (AddHandler "/")
                   (constructed p_content_type
                      [Unref "srcpad"; Unref "stream_element"; Unref "bus";
                       SetState GST_STATE_READY])))))))
  = [Unref "srcpad"; Unref "stream_element"; Unref "bus"; AddHandler "/"; Listen port].
Proof. by rewrite startup_events_run. Qed.

(** X16.  Once the pipeline object exists, every way out of [main], be it
    a listener that does not start, the end of the main loop or an exception
    out of a callback, takes the pipeline to NULL and releases it, then
    releases the main loop, then the server, in this order; the pipeline
    was not released before, and in between only lines on [std::cerr] are
    written. *)
Theorem main_tears_down_in_reverse_order env sr schedule argv v pipeline :
  (5 ≤ length argv)%nat →
  soup_server_new_ok env = true →
  g_main_loop_new_ok env = true →
  stoi (nth 1 argv "") = stoi_value v →
  constructor env (nth 2 argv "") [] = Returns pipeline →
  ∃ before lines,
    snd (main env sr schedule argv)
    = before ++ [SetState GST_STATE_NULL; Unref "m_pipeline"] ++ lines
             ++ [Unref "mainloop"; Unref "soup_server"]
    ∧ Forall (λ e, ∃ text, e = Stderr text) lines
    ∧ count_occ event_eq_dec before (Unref "m_pipeline") = 0
    ∧ count_occ event_eq_dec before (Unref "mainloop") = 0
    ∧ count_occ event_eq_dec before (Unref "soup_server") = 0.
Proof.
  intros Hargc Hsoup Hloop Hport Hctor. unfold main.
  destruct (Nat.ltb_spec (length argv) 5) as [?|_]; [lia|].
  rewrite Hsoup, Hloop, Hport. cbn [negb]. rewrite !leave_unref. cbn [fst snd].
  unfold serve. rewrite Hctor.
  apply constructor_returned in Hctor as ->. cbn [app].
  destruct (soup_server_listen_all_error env) as [message|].
  - rewrite destructor_trace. cbn [snd fst].
    match goal with |- context [trace ?s0 ++ [SetState GST_STATE_NULL; _]] =>
      exists (trace s0), [] end.
    split; [simpl; by rewrite <- ?app_assoc|]. split; [constructor|].
    repeat split; reflexivity.
  - pose proof (served_events sr schedule (nth 2 argv "") (v mod 2 ^ 32)%Z) as Hev.
    destruct (run sr schedule _) as [s1|what s1]; cbn [state_of] in Hev;
      rewrite destructor_trace; cbn [snd fst].
    + exists (trace (exit_sighandler s1)), [Stderr ("Quitting" +:+ nl)].
      split; [simpl; by rewrite <- ?app_assoc|].
      split; [repeat constructor; by eexists|].
      rewrite !(count_unref_of_startup_events _ (trace (exit_sighandler s1))).
      cbn [exit_sighandler cerr emit trace]. rewrite List.filter_app, Hev.
      repeat split; reflexivity.
    + exists (trace s1), [Stderr ("Exception caught: " +:+ what +:+ nl);
                          Stderr ("Quitting" +:+ nl)].
      split; [simpl; by rewrite <- ?app_assoc|].
      split; [repeat constructor; by eexists|].
      rewrite !(count_unref_of_startup_events _ (trace s1)), Hev.
      repeat split; reflexivity.
Qed.

Lemma main_tears_down_in_reverse_order_witness :
  ∃ before lines,
    snd (main all_well engine_keeps_playing
           [AddClient 10 1; Post GST_MESSAGE_EOS; Dispatch]%N argv_80abc)
    = before ++ [SetState GST_STATE_NULL; Unref "m_pipeline"] ++ lines
             ++ [Unref "mainloop"; Unref "soup_server"]
    ∧ Forall (λ e, ∃ text, e = Stderr text) lines
    ∧ count_occ event_eq_dec before (Unref "m_pipeline") = 0
    ∧ count_occ event_eq_dec before (Unref "mainloop") = 0
    ∧ count_occ event_eq_dec before (Unref "soup_server") = 0.
Proof.
  apply (main_tears_down_in_reverse_order all_well engine_keeps_playing
           [AddClient 10 1; Post GST_MESSAGE_EOS; Dispatch]%N argv_80abc 80%Z
           (constructed "video/ogg"
              [Unref "srcpad"; Unref "stream_element"; Unref "bus";
               SetState GST_STATE_READY])).
  - simpl. lia.
  - reflexivity.
  - reflexivity.
  - vm_compute. reflexivity.
  - vm_compute. reflexivity.
Defined.

(** X17.  The program listens at most once, and only when the port argument
    was accepted, the pipeline object was built and the listener started;
    the port is the value [std::stoi] read, taken as [guint].  No callback
    makes it listen again. *)
Theorem main_listens_once_after_construction env sr schedule argv :
  listens (snd (main env sr schedule argv))
  = if (5 <=? length argv)%nat && soup_server_new_ok env && g_main_loop_new_ok env
    then match stoi (nth 1 argv "") with
         | stoi_value v =>
             match constructor env (nth 2 argv "") [],
                   soup_server_listen_all_error env with
             | Returns _, None => [(v mod 2 ^ 32)%Z]
             | _, _ => []
             end
         | _ => []
         end
    else [].
Proof.
  unfold main.
  destruct (Nat.ltb_spec (length argv) 5) as [Hlt|Hge].
  { rewrite (proj2 (Nat.leb_gt _ _)) by done. done. }
  rewrite (proj2 (Nat.leb_le _ _)) by done. cbn [andb].
  destruct (soup_server_new_ok env); cbn [negb andb]; [|done].
  rewrite leave_unref. cbn [snd].
  destruct (g_main_loop_new_ok env); cbn [negb andb]; [|done].
  rewrite leave_unref. cbn [snd].
  destruct (stoi (nth 1 argv "")) as [v| |]; [|done..].
  unfold serve.
  destruct (constructor env (nth 2 argv "") []) as [pipeline|what pipeline] eqn:Hctor.
  - apply constructor_returned in Hctor as ->. cbn [app].
    destruct (soup_server_listen_all_error env) as [message|].
    + rewrite destructor_trace. reflexivity.
    + pose proof (served_events sr schedule (nth 2 argv "") (v mod 2 ^ 32)%Z) as Hev.
      destruct (run sr schedule _) as [s1|what s1]; cbn [state_of] in Hev;
        rewrite destructor_trace; cbn [snd exit_sighandler cerr emit trace];
        rewrite listens_of_startup_events, !List.filter_app, Hev; reflexivity.
  - pose proof (constructor_never_listens env (nth 2 argv "")) as H.
    rewrite Hctor in H. cbn [state_of snd] in *.
    unfold listens in *. rewrite !omap_app, H.
    by destruct (soup_server_listen_all_error env).
Qed.

(** *** More on the port *)

Lemma strtol_unsigned c rest :
  starts_with_digit (String c rest) = true →
  strtol (String c rest) = Some (read_digits 0 (String c rest)).
Proof.
  intros H.
  destruct c as [[] [] [] [] [] [] [] []];
    try (vm_compute in H; discriminate); reflexivity.
Qed.

Lemma strtol_signed c rest :
  c = "-"%char ∨ c = "+"%char →
  strtol (String c rest)
  = if starts_with_digit rest
    then Some (if Ascii.eqb c "-" then - read_digits 0 rest else read_digits 0 rest)%Z
    else None.
Proof. intros [-> | ->]; reflexivity. Qed.

Lemma no_digit_in_front (t : string) : starts_with_digit t = false → ∀ acc, read_digits acc t = acc.
Proof.
  destruct t as [|c t]; [done|]. simpl. intros H acc.
  destruct (digit_of c); [|done].
  by rewrite bool_decide_eq_true_2 in H.
Qed.

Lemma read_digits_app (d t : string) acc :
  all_digits d = true → starts_with_digit t = false →
  read_digits acc (d +:+ t) = read_digits acc d.
Proof.
  intros Hd Ht. revert acc. induction d as [|c d IH]; intros acc.
  - simpl. by apply no_digit_in_front.
  - simpl in *. apply andb_true_iff in Hd as [Hc Hd].
    destruct (digit_of c); [by apply IH | done].
Qed.

Lemma starts_with_digit_app (d t : string) :
  starts_with_digit d = true → starts_with_digit (d +:+ t) = true.
Proof. by destruct d. Qed.

(** X18.  [std::stoi] stops reading at the first character that is no
    digit: an integer followed by any text that does not go on with a digit
    is read as the integer alone, accepted or rejected just the same. *)
Theorem stoi_ignores_what_follows (d t : string) :
  spec_valid_integer d = true →
  starts_with_digit t = false →
  stoi (d +:+ t) = stoi d.
Proof.
  unfold spec_valid_integer, stoi. intros Hd Ht.
  assert (strtol (d +:+ t) = strtol d) as ->; [|done].
  destruct d as [|c rest]; [done|].
  destruct (decide (c = "-"%char ∨ c = "+"%char)) as [Hsign|Hnone].
  - assert (starts_with_digit rest && all_digits rest = true) as Hr
        by (by destruct Hsign as [-> | ->]).
    apply andb_true_iff in Hr as [Hr1 Hr2].
    change (String c rest +:+ t) with (String c (rest +:+ t)).
    rewrite !strtol_signed, starts_with_digit_app, Hr1, read_digits_app by done.
    done.
  - assert (starts_with_digit (String c rest) && all_digits (String c rest) = true)
      as Hr.
    { destruct c as [[] [] [] [] [] [] [] []]; try done; exfalso; apply Hnone; auto. }
    apply andb_true_iff in Hr as [Hr1 Hr2].
    change (String c rest +:+ t) with (String c (rest +:+ t)).
    rewrite !strtol_unsigned by done.
    change (String c (rest +:+ t)) with (String c rest +:+ t).
    by rewrite read_digits_app.
Qed.

Lemma stoi_ignores_what_follows_witness :
  stoi ("-8080" +:+ " ( videotestsrc )") = stoi "-8080".
Proof.
  apply (stoi_ignores_what_follows "-8080" " ( videotestsrc )"); reflexivity.
Defined.

Lemma read_digits_of_uint_acc d acc :
  read_digits (Z.pos acc) (NilEmpty.string_of_uint d) = Z.pos (Pos.of_uint_acc d acc).
Proof.
  revert acc. induction d as [|d IH|d IH|d IH|d IH|d IH|d IH|d IH|d IH|d IH|d IH];
    intros acc; [done|..]; cbn [NilEmpty.string_of_uint Pos.of_uint_acc];
    rewrite <- IH; cbn [read_digits];
    match goal with |- context [digit_of ?c] =>
      let v := eval vm_compute in (digit_of c) in change (digit_of c) with v
    end; cbv iota beta; f_equal; lia.
Qed.

Lemma read_digits_of_uint d :
  read_digits 0 (NilEmpty.string_of_uint d) = Z.of_N (Pos.of_uint d).
Proof.
  induction d as [|d IH|d IH|d IH|d IH|d IH|d IH|d IH|d IH|d IH|d IH];
    [done | exact IH | ..];
    cbn [NilEmpty.string_of_uint Pos.of_uint Z.of_N read_digits];
    match goal with |- context [digit_of ?c] =>
      let v := eval vm_compute in (digit_of c) in change (digit_of c) with v
    end; cbv iota beta;
    rewrite <- read_digits_of_uint_acc; reflexivity.
Qed.

Lemma strtol_of_uint d :
  d ≠ Decimal.Nil →
  strtol (NilZero.string_of_uint d) = Some (Z.of_N (N.of_uint d)).
Proof.
  intros Hd. unfold N.of_uint. rewrite <- read_digits_of_uint.
  destruct d; [done|..]; apply strtol_unsigned; reflexivity.
Qed.

(** X19.  The port the program prints in its "Listening" line, given back
    as port argument, is read by [std::stoi] as the same number, as long as
    it fits [int]; from [2^31] on the printed number is rejected as out of
    range. *)
Theorem stoi_reads_back_printed_port n :
  (0 ≤ n)%Z →
  stoi (dec n) = if (n <=? INT_MAX)%Z then stoi_value n else stoi_out_of_range.
Proof.
  intros Hn. unfold stoi, dec.
  rewrite strtol_of_uint.
  - rewrite DecimalN.Unsigned.of_to, Z2N.id by done.
    unfold INT_MIN, INT_MAX.
    destruct (Z.leb_spec n (2 ^ 31 - 1)); destruct (Z.ltb_spec n (- 2 ^ 31));
      destruct (Z.ltb_spec (2 ^ 31 - 1) n); simpl; try done; lia.
  - destruct (Z.to_N n); [done | apply DecimalPos.Unsigned.to_uint_nonnil].
Qed.

Lemma stoi_reads_back_printed_port_witness :
  stoi (dec 8080) = if (8080 <=? INT_MAX)%Z then stoi_value 8080 else stoi_out_of_range.
Proof. apply (stoi_reads_back_printed_port 8080). lia. Defined.

(** X20.  The exit status of the program is 0 or 255, and it is 255 in
    exactly these cases: fewer than five arguments, no server, no main
    loop, a port [std::stoi] throws on, or a pipeline that was built and a
    listener that did not start.  A constructor that throws, and an
    exception out of a callback, end in status 0 like a clean shutdown. *)
Theorem exit_status_of_main env sr schedule argv :
  exit_status (fst (main env sr schedule argv))
  = if (length argv <? 5)%nat
       || negb (soup_server_new_ok env)
       || negb (g_main_loop_new_ok env)
       || match stoi (nth 1 argv "") with stoi_value _ => false | _ => true end
       || match constructor env (nth 2 argv "") [], soup_server_listen_all_error env with
          | Returns _, Some _ => true
          | _, _ => false
          end
    then 255%Z else 0%Z.
Proof.
  rewrite main_returns.
  destruct (length argv <? 5)%nat; [done|].
  destruct (soup_server_new_ok env); [|done].
  destruct (g_main_loop_new_ok env); [|done]. cbn [negb orb].
  destruct (stoi (nth 1 argv "")); [|done..]. cbn [orb].
  destruct (constructor env (nth 2 argv "") []); [|done].
  by destruct (soup_server_listen_all_error env).
Qed.
End MoreOfStartup.
